(** * FontFinder-AI: the font service and the React view model

    A shallow embedding of [src/services/fontService.ts] and [src/App.tsx].

    - [Js] holds the few pieces of JavaScript semantics the two files rely
      on: completions (normal return or throw), truthiness of
      [string | null | undefined], [a || b], [String.prototype.split], and
      a state/trace/exception monad with [try]/[catch]/[finally].
    - [fontService] embeds [identifyFonts].  The environment variable, the
      SDK call and [JSON.parse] are not code of this repository: they are
      fields of an [Env] record the function is run against.
    - [App] embeds the component: its five [useState] cells, the handlers
      [onDrop], [handleAnalyze], [copyToClipboard], the rendered view, and
      the event loop around them as a step relation. *)

From stdpp Require Import base option list strings relations.
From Stdlib Require Import Ascii String ZArith SpecFloat.

Open Scope string_scope.
Open Scope list_scope.

(* ===================================================================== *)
(** ** JavaScript semantics used by the sources                          *)
(* ===================================================================== *)

Module Js.

(** A thrown value.  The sources only ever pass it to [console.error]. *)
Record JsError := mkError { err_name : string; err_message : string }.

(** [new Error(msg)] *)
Definition Error (msg : string) : JsError := mkError "Error" msg.

(** How an evaluation (or an awaited promise) ends. *)
Inductive completion (A : Type) : Type :=
| Returned (a : A)
| Thrown (e : JsError).
Arguments Returned {A} a.
Arguments Thrown {A} e.

(** Truthiness of a [string | null | undefined]: [null], [undefined] and
    the empty string are falsy. *)
Definition truthy (v : option string) : bool :=
  match v with
  | Some s => negb (String.eqb s "")
  | None => false
  end.

(** The string inside a truthy [string | null | undefined]. *)
Definition as_truthy (v : option string) : option string :=
  if truthy v then v else None.

(** [a || b] for [a : string | undefined], [b : string]. *)
Definition or_else (a : option string) (b : string) : string :=
  match as_truthy a with
  | Some s => s
  | None => b
  end.

(** [s.split(sep)] for a one-character separator: the maximal
    separator-free segments, in order; never the empty array.  Strings
    are byte strings (UTF-8); the separator used by the source is the
    ASCII comma, whose byte occurs in UTF-8 only as itself, so the
    segments are those of the UTF-16 string. *)
Fixpoint split (sep : ascii) (s : string) : list string :=
  match s with
  | EmptyString => [ EmptyString ]
  | String c rest =>
      if Ascii.eqb c sep then EmptyString :: split sep rest
      else match split sep rest with
           | seg :: segs => String c seg :: segs
           | [] => [ String c EmptyString ]
           end
  end.

(** A JavaScript number: an IEEE-754 binary64 value. *)
Definition number : Type := spec_float.

(** [x * y] on numbers. *)
Definition times (x y : number) : number := SFmul 53 1024 x y.

(** What [Math.round] returns, read as an integer when it is one. *)
Inductive rounded : Type :=
| NaN
| Infinity (negative : bool)
| Int (z : Z).

(** [Math.round(x)]: the integer nearest to [x], ties towards +infinity,
    that is [floor (x + 1/2)] on the exact value of [x]. *)
Definition Math_round (x : number) : rounded :=
  match x with
  | S754_nan => NaN
  | S754_infinity s => Infinity s
  | S754_zero _ => Int 0
  | S754_finite s m e =>
      let num := if s then Z.opp (Z.pos m) else Z.pos m in
      if (0 <=? e)%Z then Int (num * 2 ^ e)
      else let d := (2 ^ (- e))%Z in Int ((2 * num + d) / (2 * d))
  end.

(** *** Handlers as state transformers that log effects and may throw *)

Section Eff.
Context {St Ev : Type}.

Definition Eff (A : Type) : Type := St -> completion A * St * list Ev.

Definition ret {A} (a : A) : Eff A := fun s => (Returned a, s, []).

Definition bind {A B} (m : Eff A) (k : A -> Eff B) : Eff B :=
  fun s =>
    match m s with
    | (Returned a, s1, l1) =>
        let '(r, s2, l2) := k a s1 in (r, s2, l1 ++ l2)
    | (Thrown e, s1, l1) => (Thrown e, s1, l1)
    end.

(** [throw e] *)
Definition throw {A} (e : JsError) : Eff A := fun s => (Thrown e, s, []).

(** [await p] for a promise [p] that settles as [c]. *)
Definition settled {A} (c : completion A) : Eff A := fun s => (c, s, []).

(** One observable effect. *)
Definition emit (ev : Ev) : Eff unit := fun s => (Returned tt, s, [ ev ]).

Definition gets {A} (f : St -> A) : Eff A := fun s => (Returned (f s), s, []).

Definition modify (f : St -> St) : Eff unit := fun s => (Returned tt, f s, []).

(** [try { body } catch (e) { handler e }] *)
Definition try_catch {A} (body : Eff A) (handler : JsError -> Eff A) : Eff A :=
  fun s =>
    match body s with
    | (Thrown e, s1, l1) =>
        let '(r, s2, l2) := handler e s1 in (r, s2, l1 ++ l2)
    | r => r
    end.

(** [try { body } finally { fin }]: [fin] always runs; the completion of
    [body] stands unless [fin] itself throws. *)
Definition try_finally {A} (body : Eff A) (fin : Eff unit) : Eff A :=
  fun s =>
    let '(r, s1, l1) := body s in
    match fin s1 with
    | (Returned _, s2, l2) => (r, s2, l1 ++ l2)
    | (Thrown e, s2, l2) => (Thrown e, s2, l1 ++ l2)
    end.

Definition outcome {A} (r : completion A * St * list Ev) : completion A := r.1.1.

Definition final {A} (r : completion A * St * list Ev) : St := r.1.2.

Definition effects {A} (r : completion A * St * list Ev) : list Ev := r.2.

End Eff.

Arguments Eff : clear implicits.

Declare Scope eff_scope.
Delimit Scope eff_scope with eff.
Notation "x <- m ;; k" := (bind m (fun x => k))
  (at level 100, m at next level, right associativity) : eff_scope.
Notation "m ;; k" := (bind m (fun _ => k))
  (at level 100, right associativity) : eff_scope.

End Js.

Import Js.

(* ===================================================================== *)
(** ** src/services/fontService.ts                                       *)
(* ===================================================================== *)

Module fontService.

Record SampleCharacters := mkSampleCharacters {
  english : list string;
  persian : list string;
  numbers : list string
}.

Record FontInfo := mkFontInfo {
  name : string;
  confidence : number;
  isFree : bool;
  downloadUrl : string;
  description : string;
  sampleCharacters : SampleCharacters
}.

(** *** The request handed to [ai.models.generateContent] *)

(** The SDK's [Type] enumeration, as far as the schema uses it. *)
#[warnings="-register-all"]
Inductive Schema : Type :=
| STRING
| NUMBER
| BOOLEAN
| ARRAY (items : Schema)
| OBJECT (properties : list (string * Schema)) (required : list string).

Record InlineData := mkInlineData { mimeType : string; data : string }.

Inductive Part : Type :=
| TextPart (text : string)
| InlineDataPart (inlineData : InlineData).

Record Content := mkContent { parts : list Part }.

Record Config := mkConfig { responseMimeType : string; responseSchema : Schema }.

Record Request := mkRequest {
  model : string;
  contents : list Content;
  config : Config
}.

(** The response object: only its [text] getter is read.  The getter is
    evaluated inside the [try] block, so it is given the freedom to throw. *)
Record Response := mkResponse { text : completion (option string) }.

(** *** What the function is run against (none of it is repository code) *)

Record Env := mkEnv {
  (** [process.env.GEMINI_API_KEY] *)
  GEMINI_API_KEY : option string;
  (** how [ai.models.generateContent(request)] settles for the client built
      from the given key *)
  generateContent : string -> Request -> completion Response;
  (** [JSON.parse], at the type the function declares for its result *)
  JSON_parse : string -> completion (list FontInfo)
}.

(** What the function does to the outside world, in order. *)
Inductive Effect : Type :=
| NewGoogleGenAI (apiKey : string)
| NetworkCall (apiKey : string) (request : Request)
| ConsoleError (label : string) (e : JsError).

Definition prompt : string := "
    Analyze the provided image and identify the fonts used in it. 
    For each distinct font found, provide its name, whether it's free or paid, a likely download or info URL, and a brief description.
    Also, provide a set of sample characters (English letters, Persian/Arabic letters, and numbers) that represent this font.
    
    Return the data in a strict JSON format as an array of objects.
  ".

Definition responseSchema_ : Schema :=
  ARRAY
    (OBJECT
       [ ("name", STRING);
         ("confidence", NUMBER);
         ("isFree", BOOLEAN);
         ("downloadUrl", STRING);
         ("description", STRING);
         ("sampleCharacters",
           OBJECT
             [ ("english", ARRAY STRING);
               ("persian", ARRAY STRING);
               ("numbers", ARRAY STRING) ]
             [ "english"; "persian"; "numbers" ]) ]
       [ "name"; "confidence"; "isFree"; "downloadUrl"; "description";
         "sampleCharacters" ]).

(** [base64Image.split(",")[1] || base64Image] *)
Definition inline_payload (base64Image : string) : string :=
  or_else (split "," base64Image !! 1%nat) base64Image.

(** The argument of [ai.models.generateContent]. *)
Definition request (base64Image : string) : Request :=
  {| model := "gemini-3.1-pro-preview";
     contents :=
       [ {| parts :=
              [ TextPart prompt;
                InlineDataPart
                  {| mimeType := "image/jpeg";
                     data := inline_payload base64Image |} ] |} ];
     config :=
       {| responseMimeType := "application/json";
          responseSchema := responseSchema_ |} |}.

Definition Service (A : Type) : Type := Eff unit Effect A.

(** [await ai.models.generateContent(request)] *)
Definition await_generateContent (env : Env) (apiKey : string) (req : Request)
  : Service Response :=
  (emit (NetworkCall apiKey req) ;; settled (generateContent env apiKey req))%eff.

(** The [try] block at the end of [identifyFonts]. *)
Definition parse_response (env : Env) (response : Response)
  : Service (list FontInfo) :=
  try_catch
    (text <- settled (text response) ;;
     match as_truthy text with
     | None => ret []
     | Some text => settled (JSON_parse env text)
     end)%eff
    (fun e =>
       (emit (ConsoleError "Failed to parse Gemini response" e) ;; ret [])%eff).

Definition identifyFonts (env : Env) (base64Image : string)
  : Service (list FontInfo) :=
  match as_truthy (GEMINI_API_KEY env) with
  | None => throw (Error "Gemini API key is missing")
  | Some apiKey =>
      (emit (NewGoogleGenAI apiKey) ;;
       response <- await_generateContent env apiKey (request base64Image) ;;
       parse_response env response)%eff
  end.

(** How the promise returned by [identifyFonts] settles, and what the
    call did on the way. *)
Definition run {A} (m : Service A) : completion A * list Effect :=
  let r := m tt in (outcome r, effects r).

End fontService.

Import fontService.

(* ===================================================================== *)
(** ** src/App.tsx                                                       *)
(* ===================================================================== *)

Module App.

(** *** Component state: the five [useState] cells *)

Record State := mkState {
  image : option string;
  loading : bool;
  results : list FontInfo;
  error : option string;
  copiedChar : option string
}.

(** The initial values given to [useState]. *)
Definition initial : State :=
  {| image := None; loading := false; results := []; error := None;
     copiedChar := None |}.

(** An accepted file, as far as the component can observe it: the media
    type the browser attached to it and its bytes in base64. *)
Record File := mkFile { file_type : string; file_base64 : string }.

(** [reader.result] after a successful [reader.readAsDataURL(file)]. *)
Definition dataURL (file : File) : string :=
  "data:" +:+ file_type file +:+ ";base64," +:+ file_base64 file.

(** What a handler asks of the browser, in order. *)
Inductive Effect : Type :=
| ReadAsDataURL (file : File)
| CallIdentifyFonts (base64Image : string)
| ConsoleError (e : JsError)
| ClipboardWriteText (char : string)
| SetTimeout (ms : nat).

Definition Handler (A : Type) : Type := Eff State Effect A.

Definition setImage (v : option string) : Handler unit :=
  modify (fun s => mkState v (loading s) (results s) (error s) (copiedChar s)).

Definition setLoading (v : bool) : Handler unit :=
  modify (fun s => mkState (image s) v (results s) (error s) (copiedChar s)).

Definition setResults (v : list FontInfo) : Handler unit :=
  modify (fun s => mkState (image s) (loading s) v (error s) (copiedChar s)).

Definition setError (v : option string) : Handler unit :=
  modify (fun s => mkState (image s) (loading s) (results s) v (copiedChar s)).

Definition setCopiedChar (v : option string) : Handler unit :=
  modify (fun s => mkState (image s) (loading s) (results s) (error s) v).

(** *** Handlers *)

(** [onDrop]: starts a [FileReader] on [acceptedFiles[0]], if there is one.
    The state is touched only later, by [reader_onload]. *)
Definition onDrop (acceptedFiles : list File) : Handler unit :=
  match acceptedFiles !! 0%nat with
  | Some file => emit (ReadAsDataURL file)
  | None => ret tt
  end.

(** The [reader.onload] callback registered by [onDrop]. *)
Definition reader_onload (result : string) : Handler unit :=
  (setImage (Some result) ;;
   setResults [] ;;
   setError None)%eff.

Definition no_fonts_message : string :=
  "No fonts could be identified. Try a clearer image.".

Definition generic_error_message : string :=
  "An error occurred during analysis. Please try again.".

(** [handleAnalyze] up to its [await]: the guard, the two setters and the
    call.  The result is the image the call was issued with, if any. *)
Definition handleAnalyze_begin : Handler (option string) :=
  (image <- gets image ;;
   match as_truthy image with
   | None => ret None
   | Some image =>
       setLoading true ;;
       setError None ;;
       emit (CallIdentifyFonts image) ;;
       ret (Some image)
   end)%eff.

(** [handleAnalyze] from its [await] on, once the promise returned by
    [identifyFonts] has settled as [settlement]. *)
Definition handleAnalyze_resume (settlement : completion (list FontInfo))
  : Handler unit :=
  try_finally
    (try_catch
       (fonts <- settled settlement ;;
        setResults fonts ;;
        if (List.length fonts =? 0)%nat then setError (Some no_fonts_message)
        else ret tt)%eff
       (fun err =>
          (setError (Some generic_error_message) ;;
           emit (ConsoleError err))%eff))
    (setLoading false).

(** A whole run of [handleAnalyze] during which nothing else happens;
    [identify] says how [identifyFonts] settles on each image. *)
Definition handleAnalyze (identify : string -> completion (list FontInfo))
  : Handler unit :=
  (call <- handleAnalyze_begin ;;
   match call with
   | None => ret tt
   | Some image => handleAnalyze_resume (identify image)
   end)%eff.

(** How [identifyFonts] settles in a given environment. *)
Definition identify_in (env : Env) (base64Image : string)
  : completion (list FontInfo) :=
  (fontService.run (identifyFonts env base64Image)).1.

Definition copyToClipboard (char : string) : Handler unit :=
  (emit (ClipboardWriteText char) ;;
   setCopiedChar (Some char) ;;
   emit (SetTimeout 1500))%eff.

(** The callback handed to [setTimeout] by [copyToClipboard]. *)
Definition copied_timeout : Handler unit := setCopiedChar None.

(** *** The rendered view *)

(** One character button; [cell_indicator] is the text of the little
    overlay rendered when [copiedChar === char]. *)
Record Cell := mkCell { cell_char : string; cell_indicator : option string }.

Definition shows_copied (cell : Cell) : bool :=
  match cell_indicator cell with Some _ => true | None => false end.

Record Card := mkCard {
  card_key : nat;
  card_title : string;
  card_badge : string;
  card_confidence : rounded;
  card_href : string;
  card_description : string;
  card_numbers : list Cell;
  card_english : list Cell;
  card_persian : list Cell
}.

(** The right column: the cards, or one of the two placeholders. *)
Inductive Pane : Type :=
| Cards (cards : list Card)
| Scanning
| Placeholder.

Record View := mkView {
  preview : option string;
  trigger_disabled : bool;
  trigger_label : string;
  notice : option string;
  pane : Pane
}.

Definition renderCell (copiedChar : option string) (label : string)
    (char : string) : Cell :=
  {| cell_char := char;
     cell_indicator :=
       if bool_decide (copiedChar = Some char) then Some label else None |}.

Definition renderCard (copiedChar : option string) (idx : nat) (font : FontInfo)
  : Card :=
  {| card_key := idx;
     card_title := name font;
     card_badge := if isFree font then "Free Font" else "Premium Font";
     card_confidence :=
       Math_round (times (confidence font) (S754_finite false 100 0));
     card_href := downloadUrl font;
     card_description := description font;
     card_numbers :=
       renderCell copiedChar "Copied!" <$> numbers (sampleCharacters font);
     card_english :=
       renderCell copiedChar "Copied!" <$> english (sampleCharacters font);
     card_persian :=
       renderCell copiedChar "کپی شد!" <$> persian (sampleCharacters font) |}.

Definition render (s : State) : View :=
  {| preview := as_truthy (image s);
     trigger_disabled := negb (truthy (image s)) || loading s;
     trigger_label :=
       if loading s then "Analyzing Fonts..." else "Identify Fonts";
     notice := as_truthy (error s);
     pane :=
       if (0 <? List.length (results s))%nat
       then Cards (imap (renderCard (copiedChar s)) (results s))
       else if loading s then Scanning else Placeholder |}.

(** The font cards on screen. *)
Definition cards_of (v : View) : list Card :=
  match pane v with
  | Cards cards => cards
  | Scanning | Placeholder => []
  end.

Definition cells_of (card : Card) : list Cell :=
  card_numbers card ++ card_english card ++ card_persian card.

(** Every character button on screen, over all cards. *)
Definition all_cells (v : View) : list Cell :=
  cards_of v ≫= cells_of.

(** *** The event loop around the component

    Besides the state, the browser holds what the handlers started and
    has not finished yet: file reads, calls to [identifyFonts], timers. *)

Record World := mkWorld {
  ui : State;
  readers : list File;
  requests : list string;
  timers : nat
}.

Definition boot : World :=
  {| ui := initial; readers := []; requests := []; timers := 0 |}.

Definition dispatch (w : World) (ev : Effect) : World :=
  match ev with
  | ReadAsDataURL file =>
      mkWorld (ui w) (readers w ++ [ file ]) (requests w) (timers w)
  | CallIdentifyFonts base64Image =>
      mkWorld (ui w) (readers w) (requests w ++ [ base64Image ]) (timers w)
  | SetTimeout _ => mkWorld (ui w) (readers w) (requests w) (S (timers w))
  | ConsoleError _ | ClipboardWriteText _ => w
  end.

(** Run a handler on the current state and hand its effects to the browser. *)
Definition fire {A} (h : Handler A) (w : World) : World :=
  let r := h (ui w) in
  foldl dispatch (mkWorld (final r) (readers w) (requests w) (timers w))
    (effects r).

Inductive step : World -> World -> Prop :=
| user_drops w acceptedFiles :
    step w (fire (onDrop acceptedFiles) w)
| reader_loads w before file after :
    readers w = before ++ file :: after ->
    step w (fire (reader_onload (dataURL file))
              (mkWorld (ui w) (before ++ after) (requests w) (timers w)))
| reader_fails w before file after :
    readers w = before ++ file :: after ->
    step w (mkWorld (ui w) (before ++ after) (requests w) (timers w))
| user_clicks_trigger w :
    trigger_disabled (render (ui w)) = false ->
    step w (fire handleAnalyze_begin w)
| request_settles w before base64Image after settlement :
    requests w = before ++ base64Image :: after ->
    step w (fire (handleAnalyze_resume settlement)
              (mkWorld (ui w) (readers w) (before ++ after) (timers w)))
| user_clicks_cell w cell :
    cell ∈ all_cells (render (ui w)) ->
    step w (fire (copyToClipboard (cell_char cell)) w)
| timer_fires w n :
    timers w = S n ->
    step w (fire copied_timeout (mkWorld (ui w) (readers w) (requests w) n)).

Definition reachable (w : World) : Prop := rtc step boot w.

(** What holds of every world the loop can reach: the image is never the
    empty string, the loading flag tells whether a call is pending (and
    then there is one), and the error is null or one of the two messages. *)
Definition consistent (w : World) : Prop :=
  image (ui w) <> Some "" /\
  (if loading (ui w)
   then exists base64Image, requests w = [ base64Image ]
   else requests w = []) /\
  (error (ui w) = None \/
   error (ui w) = Some no_fonts_message \/
   error (ui w) = Some generic_error_message).

End App.

Import App.

(* ===================================================================== *)
(** ** Reference definitions for the payload of the request             *)
(* ===================================================================== *)

Module Payload.

(** The characters of [s] before its first comma (all of [s] if it has
    none). *)
Fixpoint until_comma (s : string) : string :=
  match s with
  | EmptyString => EmptyString
  | String c rest =>
      if Ascii.eqb c "," then EmptyString else String c (until_comma rest)
  end.

(** The substring of [s] after its first comma, if it has a comma. *)
Fixpoint after_first_comma (s : string) : option string :=
  match s with
  | EmptyString => None
  | String c rest => if Ascii.eqb c "," then Some rest else after_first_comma rest
  end.

(** The payload by the words "the substring after the first comma when
    such a non-empty substring exists, and the entire input string
    otherwise". *)
Definition whole_tail_payload (s : string) : string :=
  match as_truthy (after_first_comma s) with
  | Some tail => tail
  | None => s
  end.

(** The characters between the first comma of [s] and its next comma (or
    its end), if [s] has a comma. *)
Definition second_segment (s : string) : option string :=
  until_comma <$> after_first_comma s.

(** The payload by the words "the segment between the first comma and the
    next one (or the end) when that segment exists and is non-empty, and
    the entire input string otherwise". *)
Definition segment_payload (s : string) : string :=
  match as_truthy (second_segment s) with
  | Some segment => segment
  | None => s
  end.

(** The inline-data parts a request carries. *)
Definition inline_parts (req : Request) : list InlineData :=
  contents req ≫= fun content =>
    parts content ≫= fun part =>
      match part with
      | InlineDataPart d => [ d ]
      | TextPart _ => []
      end.

(** The requests among the effects of a call. *)
Definition requests_sent (evs : list fontService.Effect) : list Request :=
  evs ≫= fun ev =>
    match ev with
    | NetworkCall _ req => [ req ]
    | _ => []
    end.

End Payload.

Import Payload.

(* ===================================================================== *)
(** ** Sample data                                                       *)
(* ===================================================================== *)

Module Sample.

(** 0.92 as a binary64 value. *)
Definition c092 : number := S754_finite false 0x1D70A3D70A3D71 (-53).

Definition vazirmatn : FontInfo :=
  {| name := "Vazirmatn";
     confidence := c092;
     isFree := true;
     downloadUrl := "https://fonts.google.com/specimen/Vazirmatn";
     description := "A Persian and Latin sans-serif typeface.";
     sampleCharacters :=
       {| english := [ "A"; "B" ];
          persian := [ "ا"; "ب" ];
          numbers := [ "1"; "2" ] |} |}.

Definition roboto : FontInfo :=
  {| name := "Roboto";
     confidence := c092;
     isFree := false;
     downloadUrl := "https://fonts.google.com/specimen/Roboto";
     description := "A neo-grotesque sans-serif typeface.";
     sampleCharacters :=
       {| english := [ "A"; "g" ]; persian := []; numbers := [ "1"; "7" ] |} |}.

Definition png : File := {| file_type := "image/png"; file_base64 := "iVBORw0KGgo=" |}.

Definition network_down : JsError := mkError "TypeError" "Failed to fetch".

Definition syntax_error : JsError :=
  mkError "SyntaxError" "Unexpected end of JSON input".

(** A stand-in for [JSON.parse] that knows three bodies. *)
Definition parse_stub (body : string) : completion (list FontInfo) :=
  if String.eqb body "[]" then Returned []
  else if String.eqb body "[vazirmatn]" then Returned [ vazirmatn ]
  else if String.eqb body "[vazirmatn,roboto]"
       then Returned [ vazirmatn; roboto ]
  else Thrown syntax_error.

(** An environment whose gateway answers every request with [body]. *)
Definition answering (key : option string) (body : completion (option string))
  : Env :=
  {| GEMINI_API_KEY := key;
     generateContent := fun _ _ => Returned {| text := body |};
     JSON_parse := parse_stub |}.

(** An environment whose gateway rejects every request. *)
Definition rejecting (key : option string) : Env :=
  {| GEMINI_API_KEY := key;
     generateContent := fun _ _ => Thrown network_down;
     JSON_parse := parse_stub |}.

(** An image is loaded and one font card is on screen. *)
Definition showing_one : State :=
  {| image := Some (dataURL png); loading := false; results := [ vazirmatn ];
     error := None; copiedChar := None |}.

(** The same with nothing pending in the browser. *)
Definition showing_one_idle : World :=
  {| ui := showing_one; readers := []; requests := []; timers := 0 |}.

(** The same while a second analysis of that image is pending. *)
Definition showing_one_busy : World :=
  {| ui := mkState (Some (dataURL png)) true [ vazirmatn ] None None;
     readers := []; requests := [ dataURL png ]; timers := 0 |}.

End Sample.

Import Sample.

(* ===================================================================== *)
(** ** Where images and calls come from                                  *)
(* ===================================================================== *)

Module Provenance.

(** [u] is what a [FileReader] produced for some file. *)
Definition is_data_url (u : string) : Prop := exists file, u = dataURL file.

(** The image, when there is one, came out of a reader; so did the image
    of every pending call; and loading is never on without an image. *)
Definition sourced (w : World) : Prop :=
  (image (ui w) = None \/ exists file, image (ui w) = Some (dataURL file)) /\
  Forall is_data_url (requests w) /\
  (loading (ui w) = true -> image (ui w) <> None).

(** The sample characters of a record in the order the card shows them. *)
Definition characters_shown (font : FontInfo) : list string :=
  numbers (sampleCharacters font) ++
  english (sampleCharacters font) ++
  persian (sampleCharacters font).

(** A second file, for scenes with two uploads. *)
Definition webp : File :=
  {| file_type := "image/webp"; file_base64 := "UklGRhoAAABXRUJQ" |}.

(** An empty file. *)
Definition empty_png : File := {| file_type := "image/png"; file_base64 := "" |}.

End Provenance.

Import Provenance.

(* ===================================================================== *)
(** ** What can happen while a call is pending                           *)
(* ===================================================================== *)

Module Interleaving.

(** Between the click on the trigger and the settlement of the call the
    trigger is disabled, so [handleAnalyze] cannot start again; every
    other handler can run.  A failed read runs no handler at all. *)
Inductive Interruption : Type :=
| Drops (acceptedFiles : list File)
| Loads (file : File)
| ReadFails
| Copies (char : string)
| TimerFires.

(** The handler an interruption runs. *)
Definition interrupt (i : Interruption) : Handler unit :=
  match i with
  | Drops acceptedFiles => onDrop acceptedFiles
  | Loads file => reader_onload (dataURL file)
  | ReadFails => ret tt
  | Copies char => copyToClipboard char
  | TimerFires => copied_timeout
  end.

(** Did an image finish loading? *)
Definition is_load (i : Interruption) : bool :=
  match i with
  | Loads _ => true
  | _ => false
  end.

Definition loaded_during (during : list Interruption) : bool :=
  existsb is_load during.

(** The state after the interruptions [during], in order. *)
Definition interrupted (during : list Interruption) (s : State) : State :=
  foldl (fun s i => final (interrupt i s)) s during.

(** The steps of the loop other than the click on the trigger and the
    settlement of a call, each with the interruption it is. *)
Inductive occurs : Interruption -> World -> World -> Prop :=
| occurs_drop w acceptedFiles :
    occurs (Drops acceptedFiles) w (fire (onDrop acceptedFiles) w)
| occurs_load w before file after :
    readers w = before ++ file :: after ->
    occurs (Loads file) w
      (fire (reader_onload (dataURL file))
         (mkWorld (ui w) (before ++ after) (requests w) (timers w)))
| occurs_read_failure w before file after :
    readers w = before ++ file :: after ->
    occurs ReadFails w
      (mkWorld (ui w) (before ++ after) (requests w) (timers w))
| occurs_copy w cell :
    cell ∈ all_cells (render (ui w)) ->
    occurs (Copies (cell_char cell)) w
      (fire (copyToClipboard (cell_char cell)) w)
| occurs_timer w n :
    timers w = S n ->
    occurs TimerFires w
      (fire copied_timeout (mkWorld (ui w) (readers w) (requests w) n)).

(** [pending during w w']: the loop goes from [w] to [w'] through the
    interruptions [during], in order, and nothing else. *)
Inductive pending : list Interruption -> World -> World -> Prop :=
| pending_nil w : pending [] w w
| pending_cons i during w w1 w2 :
    occurs i w w1 -> pending during w1 w2 -> pending (i :: during) w w2.

(** A step of the loop after which a call is still pending. *)
Definition still_pending (w w' : World) : Prop :=
  step w w' /\ requests w' <> [].

(** The world after the call made with [base64Image], pending among
    [before] and [after], has settled as [settlement]. *)
Definition settle (settlement : completion (list FontInfo))
    (before after : list string) (w : World) : World :=
  fire (handleAnalyze_resume settlement)
    (mkWorld (ui w) (readers w) (before ++ after) (timers w)).

(** A WebP has loaded over the one card while the analysis of the PNG is
    still pending. *)
Definition reloaded_busy : World :=
  {| ui := mkState (Some (dataURL webp)) true [] None None;
     readers := []; requests := [ dataURL png ]; timers := 0 |}.

End Interleaving.

Import Interleaving.

(* ===================================================================== *)
(** ** Facts about the JavaScript layer                                  *)
(* ===================================================================== *)

Module Js_facts.

Lemma truthy_Some (s : string) : truthy (Some s) = true <-> s <> "".
Proof.
  unfold truthy. destruct (String.eqb_spec s ""); simpl; split; congruence.
Qed.

Lemma as_truthy_Some (v : option string) (s : string) :
  as_truthy v = Some s <-> v = Some s /\ s <> "".
Proof.
  unfold as_truthy. destruct v as [t|]; simpl.
  - destruct (String.eqb_spec t ""); simpl; split.
    + discriminate.
    + intros [[= ->] ?]. contradiction.
    + intros [= ->]. auto.
    + intros [? _]. assumption.
  - split; [discriminate | intros [? _]; discriminate].
Qed.

Lemma as_truthy_None (v : option string) :
  as_truthy v = None <-> v = None \/ v = Some "".
Proof.
  unfold as_truthy. destruct v as [t|]; simpl.
  - destruct (String.eqb_spec t ""); simpl; split; intros H.
    + subst. auto.
    + reflexivity.
    + discriminate.
    + destruct H as [H|[= H]]; [discriminate | contradiction].
  - split; auto.
Qed.

Lemma as_truthy_truthy (v : option string) (s : string) :
  as_truthy v = Some s -> truthy v = true.
Proof. unfold as_truthy. destruct (truthy v); [reflexivity | discriminate]. Qed.

Lemma split_nonempty (sep : ascii) (s : string) : Js.split sep s <> [].
Proof.
  destruct s as [|c rest]; simpl; [discriminate|].
  destruct (Ascii.eqb c sep); [discriminate|].
  destruct (Js.split sep rest); discriminate.
Qed.

(** The first two elements of [s.split(",")]. *)
Lemma split_comma_head (s : string) :
  Js.split "," s !! 0%nat = Some (until_comma s).
Proof.
  induction s as [|c rest IH]; simpl; [reflexivity|].
  destruct (Ascii.eqb c ","); [reflexivity|].
  destruct (Js.split "," rest) as [|seg segs]; simpl in *; [discriminate|].
  congruence.
Qed.

Lemma split_comma_second (s : string) :
  Js.split "," s !! 1%nat = second_segment s.
Proof.
  unfold second_segment.
  induction s as [|c rest IH]; simpl; [reflexivity|].
  destruct (Ascii.eqb c ",") eqn:E; simpl.
  - apply split_comma_head.
  - pose proof (split_nonempty "," rest) as NE.
    destruct (Js.split "," rest) as [|seg segs]; [contradiction|].
    exact IH.
Qed.

(** [Math.round] on 2.5, -2.5, 0.25 and on 0.92 * 100. *)
Example Math_round_ties :
  Math_round (S754_finite false 5 (-1)) = Int 3 /\
  Math_round (S754_finite true 5 (-1)) = Int (-2) /\
  Math_round (S754_finite false 1 (-2)) = Int 0 /\
  Math_round (times c092 (S754_finite false 100 0)) = Int 92.
Proof. repeat split. Qed.

End Js_facts.

(* ===================================================================== *)
(** ** identifyFonts                                                     *)
(* ===================================================================== *)

Module Service_spec.

(** What a call does once the key is there: build the client, issue the
    one request, then go through the [try] block. *)
Lemma identifyFonts_with_key (env : Env) (base64Image apiKey : string) :
  as_truthy (GEMINI_API_KEY env) = Some apiKey ->
  identifyFonts env base64Image tt =
    match generateContent env apiKey (request base64Image) with
    | Returned response =>
        let '(r, _, l) := parse_response env response tt in
        (r, tt,
         [ NewGoogleGenAI apiKey; NetworkCall apiKey (request base64Image) ] ++ l)
    | Thrown e =>
        (Thrown e, tt,
         [ NewGoogleGenAI apiKey; NetworkCall apiKey (request base64Image) ])
    end.
Proof.
  intros Hkey. unfold identifyFonts. rewrite Hkey.
  unfold await_generateContent, bind, emit, settled. simpl.
  destruct (generateContent env apiKey (request base64Image)) as [response|e];
    simpl; [|reflexivity].
  destruct (parse_response env response tt) as [[r []] l]. reflexivity.
Qed.

(** The [try] block never throws, and says in each case what it returns. *)
Lemma parse_response_total (env : Env) (response : Response) :
  outcome (parse_response env response tt) =
    Returned
      match text response with
      | Returned body =>
          match as_truthy body with
          | Some body =>
              match JSON_parse env body with
              | Returned parsed => parsed
              | Thrown _ => []
              end
          | None => []
          end
      | Thrown _ => []
      end.
Proof.
  unfold parse_response, try_catch, bind, settled, ret, emit, outcome.
  destruct (text response) as [body|e]; simpl; [|reflexivity].
  destruct (as_truthy body) as [b|]; simpl; [|reflexivity].
  destruct (JSON_parse env b); reflexivity.
Qed.

(** C4.  When GEMINI_API_KEY is absent from the environment, identifyFonts
    throws "Gemini API key is missing" for every input image string, and
    it has done nothing before: no client was constructed and no network
    call was issued. *)
Theorem missing_key_throws_first (env : Env) (base64Image : string) :
  GEMINI_API_KEY env = None ->
  fontService.run (identifyFonts env base64Image) =
    (Thrown (Error "Gemini API key is missing"), []).
Proof.
  intros Hkey. unfold fontService.run, identifyFonts. rewrite Hkey. reflexivity.
Qed.

Lemma missing_key_throws_first_witness :
  GEMINI_API_KEY (rejecting None) = None /\
  fontService.run (identifyFonts (rejecting None) (dataURL png)) =
    (Thrown (Error "Gemini API key is missing"), []).
Proof.
  split; [reflexivity|].
  apply (missing_key_throws_first (rejecting None) (dataURL png)). reflexivity.
Defined.

(** An empty key is as good as none: the guard is on truthiness. *)
Lemma empty_key_throws_first (env : Env) (base64Image : string) :
  GEMINI_API_KEY env = Some "" ->
  fontService.run (identifyFonts env base64Image) =
    (Thrown (Error "Gemini API key is missing"), []).
Proof.
  intros Hkey. unfold fontService.run, identifyFonts. rewrite Hkey. reflexivity.
Qed.

(** With a usable key the client is built and the request goes out. *)
Lemma present_key_calls_out (env : Env) (base64Image apiKey : string) :
  as_truthy (GEMINI_API_KEY env) = Some apiKey ->
  exists rest,
    (fontService.run (identifyFonts env base64Image)).2 =
      NewGoogleGenAI apiKey :: NetworkCall apiKey (request base64Image) :: rest.
Proof.
  intros Hkey. unfold fontService.run.
  rewrite (identifyFonts_with_key _ _ _ Hkey).
  destruct (generateContent env apiKey (request base64Image)) as [response|e].
  - destruct (parse_response env response tt) as [[r u] l]. simpl. eauto.
  - simpl. eauto.
Qed.

(** A rejected network call rejects the whole call. *)
Lemma rejected_call_rethrown (env : Env) (base64Image apiKey : string) (e : JsError) :
  as_truthy (GEMINI_API_KEY env) = Some apiKey ->
  generateContent env apiKey (request base64Image) = Thrown e ->
  (fontService.run (identifyFonts env base64Image)).1 = Thrown e.
Proof.
  intros Hkey Hcall. unfold fontService.run.
  rewrite (identifyFonts_with_key _ _ _ Hkey), Hcall. reflexivity.
Qed.

(** How the promise settles once the gateway has answered. *)
Lemma identify_in_answered
    (env : Env) (base64Image apiKey : string) (response : Response) :
  as_truthy (GEMINI_API_KEY env) = Some apiKey ->
  generateContent env apiKey (request base64Image) = Returned response ->
  identify_in env base64Image =
    Returned
      match text response with
      | Returned body =>
          match as_truthy body with
          | Some body =>
              match JSON_parse env body with
              | Returned parsed => parsed
              | Thrown _ => []
              end
          | None => []
          end
      | Thrown _ => []
      end.
Proof.
  intros Hkey Hcall. unfold identify_in, fontService.run.
  rewrite (identifyFonts_with_key _ _ _ Hkey), Hcall.
  pose proof (parse_response_total env response) as Htotal.
  destruct (parse_response env response tt) as [[r u] l].
  exact Htotal.
Qed.

(** C2.  Whatever the body of the response, identifyFonts returns and does
    not throw; what it returns is the parsed array in full when the body is
    there, non-empty and parses, and the empty array when the body is
    missing, empty, or fails to parse (or reading it throws). *)
Theorem identifyFonts_all_or_nothing
    (env : Env) (base64Image apiKey : string) (response : Response) :
  as_truthy (GEMINI_API_KEY env) = Some apiKey ->
  generateContent env apiKey (request base64Image) = Returned response ->
  exists fonts,
    (fontService.run (identifyFonts env base64Image)).1 = Returned fonts /\
    match text response with
    | Returned (Some body) =>
        if String.eqb body "" then fonts = []
        else match JSON_parse env body with
             | Returned parsed => fonts = parsed
             | Thrown _ => fonts = []
             end
    | Returned None => fonts = []
    | Thrown _ => fonts = []
    end.
Proof.
  intros Hkey Hcall.
  pose proof (identify_in_answered _ _ _ _ Hkey Hcall) as Hsettled.
  unfold identify_in in Hsettled. rewrite Hsettled.
  eexists. split; [reflexivity|].
  destruct (text response) as [[body|]|e]; try reflexivity.
  unfold as_truthy, truthy.
  destruct (String.eqb body ""); simpl; [reflexivity|].
  destruct (JSON_parse env body); reflexivity.
Qed.

Lemma identifyFonts_all_or_nothing_witness :
  (exists fonts,
     (fontService.run
        (identifyFonts
           (answering (Some "k") (Returned (Some "[vazirmatn,roboto]")))
           (dataURL png))).1 = Returned fonts /\
     fonts = [ vazirmatn; roboto ]) /\
  (exists fonts,
     (fontService.run
        (identifyFonts
           (answering (Some "k") (Returned (Some "[vazirmatn,")))
           (dataURL png))).1 = Returned fonts /\
     fonts = []).
Proof.
  split.
  - exact (identifyFonts_all_or_nothing
             (answering (Some "k") (Returned (Some "[vazirmatn,roboto]")))
             (dataURL png) "k"
             {| text := Returned (Some "[vazirmatn,roboto]") |}
             eq_refl eq_refl).
  - exact (identifyFonts_all_or_nothing
             (answering (Some "k") (Returned (Some "[vazirmatn,")))
             (dataURL png) "k"
             {| text := Returned (Some "[vazirmatn,") |}
             eq_refl eq_refl).
Defined.

End Service_spec.

(* ===================================================================== *)
(** ** The inline data of the request                                    *)
(* ===================================================================== *)

Module Payload_spec.

Import Js_facts.

(** The source expression, read against the reference definition. *)
Lemma inline_payload_segment (base64Image : string) :
  inline_payload base64Image = segment_payload base64Image.
Proof.
  unfold inline_payload, segment_payload, or_else.
  rewrite split_comma_second. reflexivity.
Qed.

Lemma until_comma_no_comma (s : string) :
  after_first_comma s = None -> until_comma s = s.
Proof.
  induction s as [|c rest IH]; simpl; [reflexivity|].
  destruct (Ascii.eqb c ","); [discriminate|].
  intros H. rewrite (IH H). reflexivity.
Qed.

(** With at most one comma in the input the two readings agree. *)
Lemma one_comma_whole_tail (s tail : string) :
  after_first_comma s = Some tail ->
  after_first_comma tail = None ->
  segment_payload s = whole_tail_payload s.
Proof.
  intros Hs Htail. unfold segment_payload, whole_tail_payload, second_segment.
  rewrite Hs. simpl. rewrite (until_comma_no_comma _ Htail). reflexivity.
Qed.

Lemma no_comma_whole_input (s : string) :
  after_first_comma s = None -> segment_payload s = s.
Proof.
  intros Hs. unfold segment_payload, second_segment. rewrite Hs. reflexivity.
Qed.

Lemma after_first_comma_app (prefix s : string) :
  after_first_comma prefix = None ->
  after_first_comma (prefix +:+ s) = after_first_comma s.
Proof.
  induction prefix as [|c rest IH]; simpl; [reflexivity|].
  destruct (Ascii.eqb c ","); [discriminate|]. exact IH.
Qed.

Lemma after_first_comma_app_comma (prefix s : string) :
  after_first_comma prefix = None ->
  after_first_comma (prefix +:+ String "," s) = Some s.
Proof.
  intros H. rewrite (after_first_comma_app _ _ H). reflexivity.
Qed.

(** For the data URL of a file whose media type and base64 text are
    comma-free, the payload is the base64 text, unless the file is empty,
    in which case the whole data URL is sent. *)
Lemma data_url_payload (file : File) :
  after_first_comma (file_type file) = None ->
  after_first_comma (file_base64 file) = None ->
  inline_payload (dataURL file) =
    if String.eqb (file_base64 file) "" then dataURL file else file_base64 file.
Proof.
  intros Htype Hdata. rewrite inline_payload_segment.
  unfold segment_payload, second_segment, dataURL.
  change ("data:" +:+ file_type file +:+ ";base64," +:+ file_base64 file)
    with ("data:" +:+ (file_type file +:+ (";base64" +:+ String "," (file_base64 file)))).
  rewrite (after_first_comma_app "data:") by reflexivity.
  rewrite (after_first_comma_app (file_type file)) by assumption.
  rewrite (after_first_comma_app_comma ";base64") by reflexivity.
  simpl. rewrite (until_comma_no_comma _ Hdata).
  unfold as_truthy, truthy. destruct (String.eqb (file_base64 file) ""); reflexivity.
Qed.

(** A PNG upload goes out declared as JPEG, with its base64 text as data. *)
Example png_declared_jpeg :
  inline_parts (request (dataURL png)) =
    [ {| mimeType := "image/jpeg"; data := "iVBORw0KGgo=" |} ].
Proof. reflexivity. Qed.

(** C9, as stated, fails: on an input with two commas the request does not
    carry the whole substring after the first comma. *)
Lemma whole_tail_payload_refuted :
  ~ (forall base64Image,
       inline_parts (request base64Image) =
         [ {| mimeType := "image/jpeg";
              data := whole_tail_payload base64Image |} ]).
Proof.
  intros H. specialize (H "a,b,c"). vm_compute in H. discriminate H.
Qed.

(** The same on an input whose first comma is directly followed by another. *)
Lemma whole_tail_payload_refuted_empty_segment :
  inline_payload "a,,c" = "a,,c" /\ whole_tail_payload "a,,c" = ",c".
Proof. split; reflexivity. Qed.

(** C9 (amended).  For every input string, identifyFonts sends at most one
    request, the one built from that string, and exactly one when the key
    is usable; the request carries one inline-data part whose declared
    MIME type is "image/jpeg" whatever the input, and whose payload is the
    segment between the first comma of the input and its next comma (or
    its end) when that segment exists and is non-empty, and the entire
    input string otherwise. *)
Theorem inline_data_of_request (env : Env) (base64Image : string) :
  requests_sent (fontService.run (identifyFonts env base64Image)).2 =
    (if truthy (GEMINI_API_KEY env) then [ request base64Image ] else []) /\
  inline_parts (request base64Image) =
    [ {| mimeType := "image/jpeg"; data := segment_payload base64Image |} ].
Proof.
  split.
  - unfold fontService.run. destruct (as_truthy (GEMINI_API_KEY env)) as [apiKey|] eqn:Hkey.
    + rewrite (Service_spec.identifyFonts_with_key _ _ _ Hkey).
      rewrite (as_truthy_truthy _ _ Hkey).
      destruct (generateContent env apiKey (request base64Image)) as [response|e];
        [|reflexivity].
      unfold parse_response, try_catch, bind, settled, ret, emit.
      destruct (text response) as [body|e]; simpl; [|reflexivity].
      destruct (as_truthy body) as [b|]; simpl; [|reflexivity].
      destruct (JSON_parse env b); reflexivity.
    + unfold identifyFonts. rewrite Hkey.
      unfold as_truthy in Hkey.
      destruct (truthy (GEMINI_API_KEY env)) eqn:Htruthy; [|reflexivity].
      rewrite Hkey in Htruthy. discriminate Htruthy.
  - unfold inline_parts. simpl. rewrite inline_payload_segment. reflexivity.
Qed.

End Payload_spec.

(* ===================================================================== *)
(** ** The component                                                     *)
(* ===================================================================== *)

Module App_spec.

Import Js_facts.

(** *** The handlers in closed form *)

Lemma handleAnalyze_begin_run (s : State) :
  handleAnalyze_begin s =
    match as_truthy (image s) with
    | None => (Returned None, s, [])
    | Some base64Image =>
        (Returned (Some base64Image),
         mkState (image s) true (results s) None (copiedChar s),
         [ CallIdentifyFonts base64Image ])
    end.
Proof.
  unfold handleAnalyze_begin, bind, gets. simpl.
  destruct (as_truthy (image s)); reflexivity.
Qed.

Lemma handleAnalyze_resume_run (settlement : completion (list FontInfo)) (s : State) :
  handleAnalyze_resume settlement s =
    match settlement with
    | Returned fonts =>
        (Returned tt,
         mkState (image s) false fonts
           (if (List.length fonts =? 0)%nat then Some no_fonts_message else error s)
           (copiedChar s),
         [])
    | Thrown e =>
        (Returned tt,
         mkState (image s) false (results s) (Some generic_error_message)
           (copiedChar s),
         [ ConsoleError e ])
    end.
Proof.
  unfold handleAnalyze_resume, try_finally, try_catch, bind, settled.
  destruct settlement as [fonts|e]; simpl; [|reflexivity].
  destruct (List.length fonts =? 0)%nat; reflexivity.
Qed.

Lemma handleAnalyze_run (identify : string -> completion (list FontInfo)) (s : State) :
  handleAnalyze identify s =
    match as_truthy (image s) with
    | None => (Returned tt, s, [])
    | Some base64Image =>
        match identify base64Image with
        | Returned fonts =>
            (Returned tt,
             mkState (image s) false fonts
               (if (List.length fonts =? 0)%nat then Some no_fonts_message else None)
               (copiedChar s),
             [ CallIdentifyFonts base64Image ])
        | Thrown e =>
            (Returned tt,
             mkState (image s) false (results s) (Some generic_error_message)
               (copiedChar s),
             [ CallIdentifyFonts base64Image; ConsoleError e ])
        end
    end.
Proof.
  unfold handleAnalyze, bind. rewrite handleAnalyze_begin_run.
  destruct (as_truthy (image s)) as [base64Image|]; [|reflexivity].
  rewrite handleAnalyze_resume_run.
  destruct (identify base64Image) as [fonts|e]; reflexivity.
Qed.

(** The cards on screen depend on the results and the copied character
    only. *)
Lemma cards_of_render (s : State) :
  cards_of (render s) = imap (renderCard (copiedChar s)) (results s).
Proof.
  unfold cards_of, render. simpl.
  destruct (results s) as [|font fonts]; simpl; [|reflexivity].
  destruct (loading s); reflexivity.
Qed.

Lemma notice_of_message (s : State) (message : string) :
  error s = Some message -> message <> "" -> notice (render s) = Some message.
Proof.
  intros Herror Hne. unfold render. simpl. rewrite Herror.
  apply as_truthy_Some. auto.
Qed.

(** C8.  handleAnalyze never lets an exception escape.  Whatever the state
    it starts from and however identifyFonts settles, it completes
    normally.  When the guard lets it through, loading is false again at
    the end and the error is null or one of the two messages: the
    no-fonts notice exactly when the call resolved with no records, null
    when it resolved with some, the generic message when it rejected.
    When the guard stops it, the state is untouched. *)
Theorem handleAnalyze_contains_failures
    (identify : string -> completion (list FontInfo)) (s : State) :
  outcome (handleAnalyze identify s) = Returned tt /\
  match as_truthy (image s) with
  | Some base64Image =>
      loading (final (handleAnalyze identify s)) = false /\
      (error (final (handleAnalyze identify s)) = None \/
       error (final (handleAnalyze identify s)) = Some no_fonts_message \/
       error (final (handleAnalyze identify s)) = Some generic_error_message) /\
      error (final (handleAnalyze identify s)) =
        match identify base64Image with
        | Returned [] => Some no_fonts_message
        | Returned (_ :: _) => None
        | Thrown _ => Some generic_error_message
        end
  | None => final (handleAnalyze identify s) = s
  end.
Proof.
  rewrite handleAnalyze_run.
  destruct (as_truthy (image s)) as [base64Image|]; [|split; reflexivity].
  destruct (identify base64Image) as [[|font fonts]|e]; simpl;
    repeat split; auto.
Qed.

(** The same at the level of the continuation: whatever happened while
    the call was pending, resuming never throws and clears loading. *)
Lemma handleAnalyze_resume_contains_failures
    (settlement : completion (list FontInfo)) (s : State) :
  outcome (handleAnalyze_resume settlement s) = Returned tt /\
  loading (final (handleAnalyze_resume settlement s)) = false.
Proof.
  rewrite handleAnalyze_resume_run. destruct settlement; split; reflexivity.
Qed.

(** C1, as stated, fails: with one card on screen, a rejected run leaves
    that card on screen next to the error notice. *)
Lemma rejected_run_clears_cards_refuted :
  ~ (forall (s : State) (identify : string -> completion (list FontInfo))
            (base64Image : string) (e : JsError),
       as_truthy (image s) = Some base64Image ->
       identify base64Image = Thrown e ->
       notice (render (final (handleAnalyze identify s))) =
         Some generic_error_message /\
       cards_of (render (final (handleAnalyze identify s))) = []).
Proof.
  intros H.
  destruct (H showing_one (identify_in (rejecting (Some "k")))
              (dataURL png) network_down eq_refl eq_refl) as [_ Hcards].
  vm_compute in Hcards. discriminate Hcards.
Qed.

(** The case of a rejected run during which nothing else happens: the
    generic error notice is shown and the results are those displayed
    before the run. *)
Lemma rejected_run_keeps_prior_results
    (s : State) (identify : string -> completion (list FontInfo))
    (base64Image : string) (e : JsError) :
  as_truthy (image s) = Some base64Image ->
  identify base64Image = Thrown e ->
  notice (render (final (handleAnalyze identify s))) =
    Some generic_error_message /\
  results (final (handleAnalyze identify s)) = results s /\
  cards_of (render (final (handleAnalyze identify s))) = cards_of (render s) /\
  (if (List.length (results s) =? 0)%nat
   then cards_of (render (final (handleAnalyze identify s))) = []
   else cards_of (render (final (handleAnalyze identify s))) <> []).
Proof.
  intros Himage Hcall. rewrite handleAnalyze_run, Himage, Hcall.
  rewrite !cards_of_render. simpl.
  repeat split.
  destruct (results s); simpl; [reflexivity | discriminate].
Qed.

(** C3.  After a run in which identifyFonts resolves with the empty array,
    no card is on screen and the "No fonts could be identified" notice is
    shown.  A run whose response body could not be read or parsed (the
    getter threw, the body was missing or empty, or JSON.parse threw) ends
    in the very same state, hence the very same view. *)
Theorem empty_result_shows_notice
    (s : State) (identify : string -> completion (list FontInfo))
    (base64Image : string) :
  as_truthy (image s) = Some base64Image ->
  identify base64Image = Returned [] ->
  cards_of (render (final (handleAnalyze identify s))) = [] /\
  notice (render (final (handleAnalyze identify s))) = Some no_fonts_message /\
  results (final (handleAnalyze identify s)) = [] /\
  forall (env : Env) (apiKey : string) (response : Response),
    as_truthy (GEMINI_API_KEY env) = Some apiKey ->
    generateContent env apiKey (request base64Image) = Returned response ->
    match text response with
    | Returned (Some body) =>
        body = "" \/ exists e, JSON_parse env body = Thrown e
    | Returned None => True
    | Thrown _ => True
    end ->
    final (handleAnalyze (identify_in env) s) =
      final (handleAnalyze identify s) /\
    render (final (handleAnalyze (identify_in env) s)) =
      render (final (handleAnalyze identify s)).
Proof.
  intros Himage Hcall.
  assert (Hfinal : final (handleAnalyze identify s) =
                   mkState (image s) false [] (Some no_fonts_message) (copiedChar s)).
  { rewrite handleAnalyze_run, Himage, Hcall. reflexivity. }
  rewrite Hfinal. split; [reflexivity|]. split; [reflexivity|].
  split; [reflexivity|].
  intros env apiKey response Hkey Hanswer Hbody.
  { assert (Hsame : final (handleAnalyze (identify_in env) s) =
                    mkState (image s) false [] (Some no_fonts_message) (copiedChar s)).
    { rewrite handleAnalyze_run, Himage.
      rewrite (Service_spec.identify_in_answered _ _ _ _ Hkey Hanswer).
      destruct (text response) as [[body|]|e]; try reflexivity.
      destruct Hbody as [-> | [e He]]; [reflexivity|].
      destruct (as_truthy (Some body)) as [b|] eqn:Hb; [|reflexivity].
      apply as_truthy_Some in Hb as [[= <-] _]. rewrite He. reflexivity. }
    rewrite Hsame. split; reflexivity. }
Qed.

Lemma empty_result_shows_notice_witness :
  cards_of (render (final (handleAnalyze
      (identify_in (answering (Some "k") (Returned (Some "[]")))) showing_one))) = [] /\
  notice (render (final (handleAnalyze
      (identify_in (answering (Some "k") (Returned (Some "[]")))) showing_one))) =
    Some no_fonts_message /\
  render (final (handleAnalyze
      (identify_in (answering (Some "k") (Returned (Some "not json")))) showing_one)) =
  render (final (handleAnalyze
      (identify_in (answering (Some "k") (Returned (Some "[]")))) showing_one)).
Proof.
  destruct (empty_result_shows_notice showing_one
              (identify_in (answering (Some "k") (Returned (Some "[]"))))
              (dataURL png) eq_refl eq_refl) as (Hcards & Hnotice & _ & Hsame).
  split; [exact Hcards|]. split; [exact Hnotice|].
  refine (proj2 (Hsame (answering (Some "k") (Returned (Some "not json"))) "k"
                   {| text := Returned (Some "not json") |} eq_refl eq_refl _)).
  right. exists syntax_error. reflexivity.
Defined.

(** C6.  After a run in which identifyFonts resolves with N > 0 records,
    exactly N cards are on screen, and the i-th card is the card of the
    i-th record: same order, same titles. *)
Theorem cards_follow_results
    (s : State) (identify : string -> completion (list FontInfo))
    (base64Image : string) (fonts : list FontInfo) :
  as_truthy (image s) = Some base64Image ->
  identify base64Image = Returned fonts ->
  (0 < List.length fonts)%nat ->
  List.length (cards_of (render (final (handleAnalyze identify s)))) =
    List.length fonts /\
  cards_of (render (final (handleAnalyze identify s))) =
    imap (renderCard (copiedChar s)) fonts /\
  card_title <$> cards_of (render (final (handleAnalyze identify s))) =
    name <$> fonts /\
  forall i : nat,
    cards_of (render (final (handleAnalyze identify s))) !! i =
      renderCard (copiedChar s) i <$> fonts !! i.
Proof.
  intros Himage Hcall Hpos.
  rewrite cards_of_render, handleAnalyze_run, Himage, Hcall. simpl.
  split; [apply length_imap|]. split; [reflexivity|]. split.
  - apply list_eq. intros i.
    rewrite !list_lookup_fmap, list_lookup_imap.
    destruct (fonts !! i); reflexivity.
  - intros i. apply list_lookup_imap.
Qed.

Lemma cards_follow_results_witness :
  List.length (cards_of (render (final (handleAnalyze
      (identify_in (answering (Some "k") (Returned (Some "[vazirmatn,roboto]"))))
      showing_one)))) = 2%nat /\
  card_title <$> cards_of (render (final (handleAnalyze
      (identify_in (answering (Some "k") (Returned (Some "[vazirmatn,roboto]"))))
      showing_one))) = [ "Vazirmatn"; "Roboto" ].
Proof.
  destruct (cards_follow_results showing_one
              (identify_in (answering (Some "k") (Returned (Some "[vazirmatn,roboto]"))))
              (dataURL png) [ vazirmatn; roboto ] eq_refl eq_refl
              (Nat.lt_0_succ 1)) as (Hlength & _ & Htitles & _).
  split; [exact Hlength | exact Htitles].
Defined.

(** The scenario of the specification: one record gives one card titled
    "Vazirmatn" with a "Free Font" badge, 92 as its confidence percentage
    and six character cells. *)
Example vazirmatn_card :
  exists card,
    cards_of (render (final (handleAnalyze
      (identify_in (answering (Some "k") (Returned (Some "[vazirmatn]"))))
      (mkState (Some (dataURL png)) false [] None None)))) = [ card ] /\
    card_title card = "Vazirmatn" /\
    card_badge card = "Free Font" /\
    card_confidence card = Int 92 /\
    List.length (cells_of card) = 6%nat.
Proof. eexists. vm_compute. repeat split. Qed.

(** *** The copied indicator *)

Lemma renderCell_shows (copied : option string) (label char : string) :
  shows_copied (renderCell copied label char) = true <-> copied = Some char.
Proof.
  unfold shows_copied, renderCell. simpl.
  destruct (bool_decide_reflect (copied = Some char)); split; congruence.
Qed.

Lemma cells_of_renderCard (copied : option string) (idx : nat) (font : FontInfo)
    (cell : Cell) :
  cell ∈ cells_of (renderCard copied idx font) ->
  exists label char, cell = renderCell copied label char.
Proof.
  unfold cells_of, renderCard. simpl.
  rewrite !elem_of_app, !list_elem_of_fmap.
  intros [(char & -> & _) | [(char & -> & _) | (char & -> & _)]]; eauto.
Qed.

Lemma all_cells_rendered (s : State) (cell : Cell) :
  cell ∈ all_cells (render s) ->
  exists label char, cell = renderCell (copiedChar s) label char.
Proof.
  unfold all_cells. rewrite cards_of_render, list_elem_of_bind.
  intros (card & Hcell & Hcard).
  apply elem_of_lookup_imap in Hcard as (idx & font & -> & _).
  eapply cells_of_renderCard. exact Hcell.
Qed.

(** C7.  The copied indicator is keyed by the character value alone.
    Right after copyToClipboard(c), a character cell, whatever its card,
    row or position, shows the indicator exactly when its character is c;
    so all cells carrying c show it together and no other cell does. *)
Theorem copied_indicator_keyed_by_value (c : string) (s : State) :
  copiedChar (final (copyToClipboard c s)) = Some c /\
  Forall (fun cell => shows_copied cell = true <-> cell_char cell = c)
    (all_cells (render (final (copyToClipboard c s)))).
Proof.
  split; [reflexivity|].
  apply Forall_forall. intros cell Hcell.
  apply all_cells_rendered in Hcell as (label & char & ->).
  rewrite renderCell_shows. simpl. split; congruence.
Qed.

(** Two cards that share a character light up together. *)
Example shared_character_lights_both :
  shows_copied <$>
    all_cells (render (final (copyToClipboard "1"
      (mkState (Some (dataURL png)) false [ vazirmatn; roboto ] None None)))) =
    [ true; false; false; false; false; false;
      true; false; false; false ].
Proof. reflexivity. Qed.

(** When the timer fires the indicator is gone everywhere. *)
Lemma timeout_clears_indicator (s : State) :
  Forall (fun cell => shows_copied cell = false)
    (all_cells (render (final (copied_timeout s)))).
Proof.
  apply Forall_forall. intros cell Hcell.
  apply all_cells_rendered in Hcell as (label & char & ->). reflexivity.
Qed.

(** What copyToClipboard does besides: the write, and the timer that will
    clear the indicator. *)
Lemma copyToClipboard_run (c : string) (s : State) :
  copyToClipboard c s =
    (Returned tt,
     mkState (image s) (loading s) (results s) (error s) (Some c),
     [ ClipboardWriteText c; SetTimeout 1500 ]).
Proof. reflexivity. Qed.

End App_spec.

(* ===================================================================== *)
(** ** The event loop                                                    *)
(* ===================================================================== *)

Module Loop_spec.

Import Js_facts App_spec.

Lemma dataURL_nonempty (file : File) : dataURL file <> "".
Proof. unfold dataURL. simpl. discriminate. Qed.

Lemma fire_onDrop (acceptedFiles : list File) (w : World) :
  fire (onDrop acceptedFiles) w =
    match acceptedFiles with
    | file :: _ => mkWorld (ui w) (readers w ++ [ file ]) (requests w) (timers w)
    | [] => w
    end.
Proof. destruct w, acceptedFiles; reflexivity. Qed.

Lemma fire_reader_onload (result : string) (w : World) :
  fire (reader_onload result) w =
    mkWorld
      (mkState (Some result) (loading (ui w)) [] None (copiedChar (ui w)))
      (readers w) (requests w) (timers w).
Proof. reflexivity. Qed.

Lemma fire_handleAnalyze_begin (w : World) :
  fire handleAnalyze_begin w =
    match as_truthy (image (ui w)) with
    | Some base64Image =>
        mkWorld
          (mkState (image (ui w)) true (results (ui w)) None (copiedChar (ui w)))
          (readers w) (requests w ++ [ base64Image ]) (timers w)
    | None => w
    end.
Proof.
  unfold fire. rewrite handleAnalyze_begin_run.
  destruct (as_truthy (image (ui w))); [reflexivity|]. destruct w; reflexivity.
Qed.

Lemma fire_handleAnalyze_resume (settlement : completion (list FontInfo)) (w : World) :
  fire (handleAnalyze_resume settlement) w =
    mkWorld (final (handleAnalyze_resume settlement (ui w)))
      (readers w) (requests w) (timers w).
Proof.
  unfold fire. rewrite handleAnalyze_resume_run.
  destruct settlement; reflexivity.
Qed.

Lemma enabled_inv (s : State) :
  trigger_disabled (render s) = false ->
  truthy (image s) = true /\ loading s = false.
Proof.
  unfold render. simpl. intros H.
  apply orb_false_iff in H as [Himage Hloading].
  apply negb_false_iff in Himage. auto.
Qed.

Lemma step_consistent (w w' : World) :
  step w w' -> consistent w -> consistent w'.
Proof.
  intros Hstep (Himage & Hpending & Herror).
  destruct Hstep as
    [ w files
    | w before file after Hreaders
    | w before file after Hreaders
    | w Henabled
    | w before base64Image after settlement Hrequests
    | w cell Hcell
    | w n Htimers ].
  - rewrite fire_onDrop. destruct files; repeat split; assumption.
  - rewrite fire_reader_onload. unfold consistent. simpl.
    split; [|split; [assumption | left; reflexivity]].
    intros H. apply (dataURL_nonempty file). congruence.
  - repeat split; assumption.
  - apply enabled_inv in Henabled as [Htruthy Hloading].
    rewrite fire_handleAnalyze_begin. unfold as_truthy. rewrite Htruthy.
    rewrite Hloading in Hpending.
    destruct (image (ui w)) as [base64Image|] eqn:Hsome; [|discriminate Htruthy].
    unfold consistent. simpl. rewrite Hpending.
    split; [congruence|]. split; [|left; reflexivity].
    exists base64Image. reflexivity.
  - rewrite fire_handleAnalyze_resume, handleAnalyze_resume_run.
    assert (Hnone : before ++ after = []).
    { destruct (loading (ui w)).
      - destruct Hpending as [sole Hsole]. rewrite Hsole in Hrequests.
        destruct before as [|b before]; simpl in Hrequests.
        + injection Hrequests as _ <-. reflexivity.
        + injection Hrequests as _ Hrest.
          destruct before; discriminate Hrest.
      - rewrite Hpending in Hrequests. destruct before; discriminate Hrequests. }
    unfold consistent. destruct settlement as [fonts|e]; simpl.
    + split; [assumption|]. split; [assumption|].
      destruct (List.length fonts =? 0)%nat; [right; left; reflexivity | assumption].
    + split; [assumption|]. split; [assumption|]. right; right; reflexivity.
  - repeat split; assumption.
  - repeat split; assumption.
Qed.

Lemma boot_consistent : consistent boot.
Proof. repeat split; [discriminate | left; reflexivity]. Qed.

Lemma reachable_consistent (w : World) : reachable w -> consistent w.
Proof.
  unfold reachable. revert w. apply (rtc_ind_r consistent boot).
  - exact boot_consistent.
  - intros w1 w2 _ Hstep IH. exact (step_consistent _ _ Hstep IH).
Qed.

(** Drop a PNG, let it load, analyse it, get one record back: one card is
    on screen.  Click the trigger again: a second call is pending. *)
Lemma showing_one_idle_reachable : reachable showing_one_idle.
Proof.
  unfold reachable.
  eapply rtc_l; [exact (user_drops boot [ png ])|].
  eapply rtc_l;
    [apply (reader_loads _ [] png []); reflexivity|].
  eapply rtc_l; [apply user_clicks_trigger; reflexivity|].
  eapply rtc_l;
    [apply (request_settles _ [] (dataURL png) [] (Returned [ vazirmatn ]));
     reflexivity|].
  apply rtc_refl.
Qed.

Lemma showing_one_busy_reachable : reachable showing_one_busy.
Proof.
  unfold reachable.
  eapply rtc_r; [exact showing_one_idle_reachable|].
  exact (user_clicks_trigger showing_one_idle eq_refl).
Qed.

(** The rejected second run that refutes C1 is one the loop can make:
    afterwards the card is still there, next to the error notice. *)
Lemma stale_card_reachable :
  exists w,
    reachable w /\
    notice (render (ui w)) = Some generic_error_message /\
    card_title <$> cards_of (render (ui w)) = [ "Vazirmatn" ].
Proof.
  eexists. split.
  - eapply rtc_r; [exact showing_one_busy_reachable|].
    exact (request_settles showing_one_busy [] (dataURL png) []
             (Thrown network_down) eq_refl).
  - split; reflexivity.
Qed.

(** C5.  In every state the loop can reach, the trigger is disabled exactly
    when no image is loaded or loading is true, and enabled otherwise; and
    loading is true exactly when a call to identifyFonts is pending. *)
Theorem trigger_disabled_iff (w : World) :
  reachable w ->
  (trigger_disabled (render (ui w)) = true <->
     image (ui w) = None \/ loading (ui w) = true) /\
  (trigger_disabled (render (ui w)) = false <->
     (exists base64Image, image (ui w) = Some base64Image) /\
     loading (ui w) = false) /\
  (loading (ui w) = true <-> requests w <> []).
Proof.
  intros Hreach. apply reachable_consistent in Hreach as (Himage & Hpending & _).
  assert (Htruthy : truthy (image (ui w)) = false <-> image (ui w) = None).
  { destruct (image (ui w)) as [base64Image|] eqn:Hsome; simpl.
    - split; [|discriminate]. intros Hfalsy.
      apply negb_false_iff, String.eqb_eq in Hfalsy. congruence.
    - split; reflexivity. }
  unfold render. simpl. split; [|split].
  - rewrite orb_true_iff, negb_true_iff, Htruthy. reflexivity.
  - rewrite orb_false_iff, negb_false_iff. split.
    + intros [Hyes Hidle]. split; [|assumption].
      destruct (image (ui w)) as [base64Image|]; [eauto | discriminate Hyes].
    + intros [[base64Image Hsome] Hidle]. split; [|assumption].
      apply not_false_iff_true. intros Hfalsy.
      apply Htruthy in Hfalsy. congruence.
  - destruct (loading (ui w)).
    + destruct Hpending as [base64Image ->]. split; [discriminate | reflexivity].
    + rewrite Hpending. split; [discriminate | contradiction].
Qed.

Lemma trigger_disabled_iff_witness :
  trigger_disabled (render (ui showing_one_idle)) = false /\
  trigger_disabled (render (ui showing_one_busy)) = true /\
  trigger_disabled (render (ui boot)) = true.
Proof.
  split; [|split].
  - apply (proj1 (proj2 (trigger_disabled_iff showing_one_idle
                           showing_one_idle_reachable))).
    split; [eexists|]; reflexivity.
  - apply (proj1 (trigger_disabled_iff showing_one_busy
                    showing_one_busy_reachable)).
    right. reflexivity.
  - apply (proj1 (trigger_disabled_iff boot (rtc_refl step boot))).
    left. reflexivity.
Defined.

(** C10.  Dropping no accepted file changes nothing.  Dropping at least one
    starts a reader on the first and leaves the state as it is; when that
    reader has loaded, the image is the file's data URL, the results are
    empty and the error is null, whatever they were before, and loading
    and the copied character are as before. *)
Theorem onDrop_replaces_image (w : World) (file : File) (others : list File) :
  fire (onDrop []) w = w /\
  fire (onDrop (file :: others)) w =
    mkWorld (ui w) (readers w ++ [ file ]) (requests w) (timers w) /\
  step (fire (onDrop (file :: others)) w)
       (mkWorld
          (mkState (Some (dataURL file)) (loading (ui w)) [] None
             (copiedChar (ui w)))
          (readers w) (requests w) (timers w)) /\
  final (reader_onload (dataURL file) (ui w)) =
    mkState (Some (dataURL file)) (loading (ui w)) [] None (copiedChar (ui w)).
Proof.
  rewrite !fire_onDrop. split; [reflexivity|]. split; [reflexivity|].
  split; [|reflexivity].
  pose proof (reader_loads
           (mkWorld (ui w) (readers w ++ [ file ]) (requests w) (timers w))
           (readers w) file [] eq_refl) as Hstep.
  rewrite fire_reader_onload in Hstep. simpl in Hstep.
  rewrite app_nil_r in Hstep. exact Hstep.
Qed.

(** A failed read leaves the state as it was. *)
Lemma failed_read_changes_nothing (w : World) (file : File) (others : list File) :
  step (fire (onDrop (file :: others)) w)
       (mkWorld (ui w) (readers w) (requests w) (timers w)).
Proof.
  rewrite fire_onDrop.
  pose proof (reader_fails
           (mkWorld (ui w) (readers w ++ [ file ]) (requests w) (timers w))
           (readers w) file [] eq_refl) as Hstep.
  simpl in Hstep. rewrite app_nil_r in Hstep. exact Hstep.
Qed.

End Loop_spec.

(* ===================================================================== *)
(** ** identifyFonts: what it does to the outside world                  *)
(* ===================================================================== *)

Module Service_trace.

Import Js_facts.

(** The whole call in closed form: how it settles and what it did. *)
Lemma identifyFonts_run (env : Env) (base64Image : string) :
  fontService.run (identifyFonts env base64Image) =
    match as_truthy (GEMINI_API_KEY env) with
    | None => (Thrown (Error "Gemini API key is missing"), [])
    | Some apiKey =>
        let sent :=
          [ NewGoogleGenAI apiKey; NetworkCall apiKey (request base64Image) ] in
        match generateContent env apiKey (request base64Image) with
        | Thrown e => (Thrown e, sent)
        | Returned response =>
            match text response with
            | Thrown e =>
                (Returned [],
                 sent ++ [ fontService.ConsoleError "Failed to parse Gemini response" e ])
            | Returned body =>
                match as_truthy body with
                | None => (Returned [], sent)
                | Some body =>
                    match JSON_parse env body with
                    | Returned fonts => (Returned fonts, sent)
                    | Thrown e =>
                        (Returned [],
                         sent ++
                         [ fontService.ConsoleError "Failed to parse Gemini response" e ])
                    end
                end
            end
        end
    end.
Proof.
  unfold fontService.run.
  destruct (as_truthy (GEMINI_API_KEY env)) as [apiKey|] eqn:Hkey.
  - rewrite (Service_spec.identifyFonts_with_key _ _ _ Hkey).
    destruct (generateContent env apiKey (request base64Image)) as [response|e];
      [|reflexivity].
    unfold parse_response, try_catch, bind, settled, ret, emit.
    destruct (text response) as [body|e]; simpl; [|reflexivity].
    destruct (as_truthy body) as [b|]; simpl; [|reflexivity].
    destruct (JSON_parse env b); reflexivity.
  - unfold identifyFonts. rewrite Hkey. reflexivity.
Qed.

Lemma as_truthy_falsy (v : option string) :
  as_truthy v = None <-> truthy v = false.
Proof.
  unfold as_truthy. destruct (truthy v) eqn:Hv; split; try congruence.
  intros Hnone. rewrite Hnone in Hv. discriminate Hv.
Qed.

(** X1.  identifyFonts stops at its guard, throwing "Gemini API key is
    missing" with no client built and no request sent, exactly when the
    key is falsy: absent or the empty string. *)
Theorem guard_stops_exactly_falsy_keys (env : Env) (base64Image : string) :
  fontService.run (identifyFonts env base64Image) =
    (Thrown (Error "Gemini API key is missing"), [])
  <-> GEMINI_API_KEY env = None \/ GEMINI_API_KEY env = Some "".
Proof.
  rewrite identifyFonts_run, <- as_truthy_None.
  destruct (as_truthy (GEMINI_API_KEY env)) as [apiKey|]; [|tauto].
  split; [|discriminate].
  destruct (generateContent env apiKey (request base64Image)) as [response|e];
    [|discriminate].
  destruct (text response) as [body|e]; [|discriminate].
  destruct (as_truthy body) as [b|]; [|discriminate].
  destruct (JSON_parse env b); discriminate.
Qed.

(** X2.  When identifyFonts throws, the thrown value is either the
    missing-key error of its guard or the very value the gateway call
    rejected with; a failure to read or parse the body never escapes. *)
Theorem thrown_by_guard_or_gateway
    (env : Env) (base64Image : string) (e : JsError) :
  (fontService.run (identifyFonts env base64Image)).1 = Thrown e ->
  (as_truthy (GEMINI_API_KEY env) = None /\
   e = Error "Gemini API key is missing") \/
  (exists apiKey,
     as_truthy (GEMINI_API_KEY env) = Some apiKey /\
     generateContent env apiKey (request base64Image) = Thrown e).
Proof.
  rewrite identifyFonts_run.
  destruct (as_truthy (GEMINI_API_KEY env)) as [apiKey|].
  - destruct (generateContent env apiKey (request base64Image))
      as [response|e'] eqn:Hcall.
    + destruct (text response) as [body|e']; [|discriminate].
      destruct (as_truthy body) as [b|]; [|discriminate].
      destruct (JSON_parse env b); discriminate.
    + simpl. intros Hthrown. injection Hthrown as ->.
      right. exists apiKey. split; [reflexivity | exact Hcall].
  - simpl. intros Hthrown. injection Hthrown as <-.
    left. split; reflexivity.
Qed.

Lemma thrown_by_guard_or_gateway_witness :
  (as_truthy (GEMINI_API_KEY (rejecting (Some "k"))) = None /\
   network_down = Error "Gemini API key is missing") \/
  (exists apiKey,
     as_truthy (GEMINI_API_KEY (rejecting (Some "k"))) = Some apiKey /\
     generateContent (rejecting (Some "k")) apiKey (request (dataURL png)) =
       Thrown network_down).
Proof.
  exact (thrown_by_guard_or_gateway (rejecting (Some "k")) (dataURL png)
           network_down eq_refl).
Defined.

(** X3.  When the gateway rejects, identifyFonts rejects with the same
    value after having built one client and sent one request: the call is
    not retried, nothing is logged and JSON.parse is not consulted. *)
Theorem rejected_call_not_retried
    (env : Env) (base64Image apiKey : string) (e : JsError) :
  as_truthy (GEMINI_API_KEY env) = Some apiKey ->
  generateContent env apiKey (request base64Image) = Thrown e ->
  fontService.run (identifyFonts env base64Image) =
    (Thrown e,
     [ NewGoogleGenAI apiKey; NetworkCall apiKey (request base64Image) ]).
Proof.
  intros Hkey Hcall. rewrite identifyFonts_run, Hkey, Hcall. reflexivity.
Qed.

Lemma rejected_call_not_retried_witness :
  fontService.run (identifyFonts (rejecting (Some "k")) (dataURL png)) =
    (Thrown network_down,
     [ NewGoogleGenAI "k"; NetworkCall "k" (request (dataURL png)) ]).
Proof.
  exact (rejected_call_not_retried (rejecting (Some "k")) (dataURL png) "k"
           network_down eq_refl eq_refl).
Defined.

(** X4.  Once the gateway has answered, identifyFonts has built one client
    and sent one request, and it writes to console.error exactly when
    reading the body or JSON.parse threw, passing the thrown value along;
    a missing or empty body is turned into [] silently. *)
Theorem unreadable_body_is_logged
    (env : Env) (base64Image apiKey : string) (response : Response) :
  as_truthy (GEMINI_API_KEY env) = Some apiKey ->
  generateContent env apiKey (request base64Image) = Returned response ->
  (fontService.run (identifyFonts env base64Image)).2 =
    [ NewGoogleGenAI apiKey; NetworkCall apiKey (request base64Image) ] ++
    match text response with
    | Thrown e =>
        [ fontService.ConsoleError "Failed to parse Gemini response" e ]
    | Returned None => []
    | Returned (Some body) =>
        if String.eqb body "" then []
        else match JSON_parse env body with
             | Thrown e =>
                 [ fontService.ConsoleError "Failed to parse Gemini response" e ]
             | Returned _ => []
             end
    end.
Proof.
  intros Hkey Hcall. rewrite identifyFonts_run, Hkey, Hcall.
  destruct (text response) as [[body|]|e]; try reflexivity.
  unfold as_truthy, truthy.
  destruct (String.eqb body ""); simpl; [reflexivity|].
  destruct (JSON_parse env body); reflexivity.
Qed.

Lemma unreadable_body_is_logged_witness :
  (fontService.run
     (identifyFonts (answering (Some "k") (Returned (Some "[vazirmatn,")))
        (dataURL png))).2 =
    [ NewGoogleGenAI "k"; NetworkCall "k" (request (dataURL png));
      fontService.ConsoleError "Failed to parse Gemini response" syntax_error ] /\
  (fontService.run
     (identifyFonts (answering (Some "k") (Returned (Some "")))
        (dataURL png))).2 =
    [ NewGoogleGenAI "k"; NetworkCall "k" (request (dataURL png)) ].
Proof.
  split.
  - exact (unreadable_body_is_logged
             (answering (Some "k") (Returned (Some "[vazirmatn,")))
             (dataURL png) "k" {| text := Returned (Some "[vazirmatn,") |}
             eq_refl eq_refl).
  - exact (unreadable_body_is_logged
             (answering (Some "k") (Returned (Some "")))
             (dataURL png) "k" {| text := Returned (Some "") |}
             eq_refl eq_refl).
Defined.

End Service_trace.

(* ===================================================================== *)
(** ** The inline payload as a piece of the input                        *)
(* ===================================================================== *)

Module Payload_shape.

Import Js_facts Payload_spec.

Lemma until_comma_free (s : string) : after_first_comma (until_comma s) = None.
Proof.
  induction s as [|c rest IH]; simpl; [reflexivity|].
  destruct (Ascii.eqb c ",") eqn:Hc; simpl; [reflexivity|].
  rewrite Hc. exact IH.
Qed.

(** A string is what precedes its first comma, then the comma and what
    follows it, if it has one. *)
Lemma cut_at_first_comma (s : string) :
  s = until_comma s +:+
      match after_first_comma s with
      | Some tail => String "," tail
      | None => ""
      end.
Proof.
  induction s as [|c rest IH]; simpl; [reflexivity|].
  destruct (Ascii.eqb_spec c ","); simpl.
  - subst c. reflexivity.
  - exact (f_equal (String c) IH).
Qed.

Lemma segment_payload_cases (s : string) :
  (segment_payload s = s /\ as_truthy (second_segment s) = None) \/
  (exists tail,
     after_first_comma s = Some tail /\
     segment_payload s = until_comma tail /\
     until_comma tail <> "").
Proof.
  unfold segment_payload.
  destruct (as_truthy (second_segment s)) as [segment|] eqn:Hsegment.
  - right. apply as_truthy_Some in Hsegment as [Hsecond Hne].
    unfold second_segment in Hsecond.
    destruct (after_first_comma s) as [tail|]; [|discriminate Hsecond].
    simpl in Hsecond. injection Hsecond as <-. eauto.
  - left. split; reflexivity.
Qed.

(** X5.  Stripping is idempotent: the payload taken from a payload is that
    payload again, so a string that was already stripped of its data-URL
    prefix goes through unchanged. *)
Theorem inline_payload_idempotent (base64Image : string) :
  inline_payload (inline_payload base64Image) = inline_payload base64Image.
Proof.
  rewrite !inline_payload_segment.
  destruct (segment_payload_cases base64Image)
    as [[Hwhole _] | (tail & _ & Hsegment & _)].
  - rewrite Hwhole. exact Hwhole.
  - rewrite Hsegment. apply no_comma_whole_input, until_comma_free.
Qed.

(** X6.  The payload is empty only for the empty input: whatever non-empty
    string identifyFonts is given, the request carries non-empty data. *)
Theorem inline_payload_empty_iff (base64Image : string) :
  inline_payload base64Image = "" <-> base64Image = "".
Proof.
  rewrite inline_payload_segment. split.
  - destruct (segment_payload_cases base64Image)
      as [[Hwhole _] | (tail & _ & Hsegment & Hne)]; congruence.
  - intros ->. reflexivity.
Qed.

(** X7.  The payload is the entire input, or else a non-empty comma-free
    piece of it that sits right after the first comma of the input and
    runs to the next comma or to the end. *)
Theorem inline_payload_piece (base64Image : string) :
  inline_payload base64Image = base64Image \/
  exists prefix suffix,
    base64Image = prefix +:+ String "," (inline_payload base64Image +:+ suffix) /\
    after_first_comma prefix = None /\
    after_first_comma (inline_payload base64Image) = None /\
    inline_payload base64Image <> "" /\
    (suffix = "" \/ exists rest, suffix = String "," rest).
Proof.
  rewrite inline_payload_segment.
  destruct (segment_payload_cases base64Image)
    as [[Hwhole _] | (tail & Htail & Hsegment & Hne)]; [left; exact Hwhole|].
  right. rewrite Hsegment.
  exists (until_comma base64Image),
    (match after_first_comma tail with
     | Some rest => String "," rest
     | None => ""
     end).
  split; [|split; [|split; [|split]]].
  - rewrite <- (cut_at_first_comma tail).
    pose proof (cut_at_first_comma base64Image) as Hcut.
    rewrite Htail in Hcut. exact Hcut.
  - apply until_comma_free.
  - apply until_comma_free.
  - exact Hne.
  - destruct (after_first_comma tail) as [rest|]; eauto.
Qed.

End Payload_shape.

(* ===================================================================== *)
(** ** The handlers, composed                                            *)
(* ===================================================================== *)

Module App_flow.

Import Js_facts App_spec.

Lemma requests_sent_run (env : Env) (base64Image apiKey : string) :
  as_truthy (GEMINI_API_KEY env) = Some apiKey ->
  requests_sent (fontService.run (identifyFonts env base64Image)).2 =
    [ request base64Image ].
Proof.
  intros Hkey. rewrite Service_trace.identifyFonts_run, Hkey.
  destruct (generateContent env apiKey (request base64Image)) as [response|e];
    [|reflexivity].
  destruct (text response) as [body|e]; [|reflexivity].
  destruct (as_truthy body) as [b|]; [|reflexivity].
  destruct (JSON_parse env b); reflexivity.
Qed.

Lemma inline_parts_request (base64Image : string) :
  inline_parts (request base64Image) =
    [ {| mimeType := "image/jpeg"; data := inline_payload base64Image |} ].
Proof. reflexivity. Qed.

(** X8.  From upload to request.  Once a dropped file has loaded, analysing
    calls identifyFonts with the file's data URL, and the one request that
    goes out carries, declared as image/jpeg, the file's own base64 text;
    for an empty file it carries the whole data URL instead.  (The media
    type and the base64 text are comma-free, as they are for real files.) *)
Theorem upload_reaches_gateway_as_base64
    (env : Env) (apiKey : string) (s : State) (file : File) :
  after_first_comma (file_type file) = None ->
  after_first_comma (file_base64 file) = None ->
  as_truthy (GEMINI_API_KEY env) = Some apiKey ->
  head (effects (handleAnalyze (identify_in env)
                   (final (reader_onload (dataURL file) s)))) =
    Some (CallIdentifyFonts (dataURL file)) /\
  inline_parts <$>
    requests_sent (fontService.run (identifyFonts env (dataURL file))).2 =
    [ [ {| mimeType := "image/jpeg";
           data := if String.eqb (file_base64 file) ""
                   then dataURL file else file_base64 file |} ] ].
Proof.
  intros Htype Hdata Hkey. split.
  - rewrite handleAnalyze_run.
    assert (Himage : as_truthy (image (final (reader_onload (dataURL file) s))) =
                     Some (dataURL file)).
    { apply as_truthy_Some. split; [reflexivity|].
      unfold dataURL. discriminate. }
    rewrite Himage.
    destruct (identify_in env (dataURL file)); reflexivity.
  - rewrite (requests_sent_run _ _ _ Hkey).
    change (inline_parts <$> [ request (dataURL file) ])
      with [ inline_parts (request (dataURL file)) ].
    rewrite inline_parts_request.
    rewrite (Payload_spec.data_url_payload _ Htype Hdata). reflexivity.
Qed.

Lemma upload_reaches_gateway_as_base64_witness :
  inline_parts <$>
    requests_sent
      (fontService.run
         (identifyFonts (rejecting (Some "k")) (dataURL webp))).2 =
    [ [ {| mimeType := "image/jpeg"; data := "UklGRhoAAABXRUJQ" |} ] ] /\
  inline_parts <$>
    requests_sent
      (fontService.run
         (identifyFonts (rejecting (Some "k")) (dataURL empty_png))).2 =
    [ [ {| mimeType := "image/jpeg"; data := "data:image/png;base64," |} ] ].
Proof.
  split.
  - exact (proj2 (upload_reaches_gateway_as_base64 (rejecting (Some "k")) "k"
                    initial webp eq_refl eq_refl eq_refl)).
  - exact (proj2 (upload_reaches_gateway_as_base64 (rejecting (Some "k")) "k"
                    initial empty_png eq_refl eq_refl eq_refl)).
Defined.

(** Right after the click: one call has been issued for the current
    image, the trigger is in its disabled "Analyzing Fonts..." form, the
    notice is cleared and the cards of the previous results are still on
    screen. *)
Lemma analysis_start_keeps_cards (s : State) (base64Image : string) :
  as_truthy (image s) = Some base64Image ->
  effects (handleAnalyze_begin s) = [ CallIdentifyFonts base64Image ] /\
  trigger_disabled (render (final (handleAnalyze_begin s))) = true /\
  trigger_label (render (final (handleAnalyze_begin s))) = "Analyzing Fonts..." /\
  notice (render (final (handleAnalyze_begin s))) = None /\
  cards_of (render (final (handleAnalyze_begin s))) = cards_of (render s) /\
  pane (render (final (handleAnalyze_begin s))) =
    match results s with
    | [] => Scanning
    | _ :: _ => Cards (cards_of (render s))
    end.
Proof.
  intros Himage. rewrite handleAnalyze_begin_run, Himage.
  rewrite !cards_of_render. unfold render. simpl.
  rewrite orb_true_r. repeat split.
  destruct (results s); reflexivity.
Qed.

(** X10.  A missing key, end to end.  With no usable key in the
    environment, a run of handleAnalyze on a loaded image ends with the
    generic error notice, the results as they were, the missing-key error
    passed to console.error, and the trigger enabled again: the rest of
    the page stays usable. *)
Theorem missing_key_surfaces_as_generic_error
    (env : Env) (s : State) (base64Image : string) :
  as_truthy (GEMINI_API_KEY env) = None ->
  as_truthy (image s) = Some base64Image ->
  handleAnalyze (identify_in env) s =
    (Returned tt,
     mkState (image s) false (results s) (Some generic_error_message)
       (copiedChar s),
     [ CallIdentifyFonts base64Image;
       ConsoleError (Error "Gemini API key is missing") ]) /\
  notice (render (final (handleAnalyze (identify_in env) s))) =
    Some generic_error_message /\
  trigger_disabled (render (final (handleAnalyze (identify_in env) s))) = false.
Proof.
  intros Hkey Himage.
  assert (Hrun : handleAnalyze (identify_in env) s =
    (Returned tt,
     mkState (image s) false (results s) (Some generic_error_message)
       (copiedChar s),
     [ CallIdentifyFonts base64Image;
       ConsoleError (Error "Gemini API key is missing") ])).
  { rewrite handleAnalyze_run, Himage. unfold identify_in.
    rewrite Service_trace.identifyFonts_run, Hkey. reflexivity. }
  rewrite Hrun. split; [reflexivity|]. split; [reflexivity|].
  unfold render, final. simpl.
  rewrite (as_truthy_truthy _ _ Himage). reflexivity.
Qed.

Lemma missing_key_surfaces_as_generic_error_witness :
  handleAnalyze (identify_in (answering None (Returned (Some "[vazirmatn]"))))
    showing_one =
    (Returned tt,
     mkState (Some (dataURL png)) false [ vazirmatn ]
       (Some generic_error_message) None,
     [ CallIdentifyFonts (dataURL png);
       ConsoleError (Error "Gemini API key is missing") ]).
Proof.
  exact (proj1 (missing_key_surfaces_as_generic_error
                  (answering None (Returned (Some "[vazirmatn]")))
                  showing_one (dataURL png) eq_refl eq_refl)).
Defined.

(** X11.  Running handleAnalyze a second time with identifyFonts settling
    the same way leaves the state exactly where the first run left it. *)
Theorem handleAnalyze_rerun_idempotent
    (identify : string -> completion (list FontInfo)) (s : State) :
  final (handleAnalyze identify (final (handleAnalyze identify s))) =
    final (handleAnalyze identify s).
Proof.
  rewrite (handleAnalyze_run identify s).
  destruct (as_truthy (image s)) as [base64Image|] eqn:Himage.
  - destruct (identify base64Image) as [fonts|e] eqn:Hcall.
    + unfold final at 2 3. simpl. rewrite handleAnalyze_run. simpl.
      rewrite Himage, Hcall. reflexivity.
    + unfold final at 2 3. simpl. rewrite handleAnalyze_run. simpl.
      rewrite Himage, Hcall. reflexivity.
  - unfold final at 2 3. simpl. rewrite handleAnalyze_run, Himage. reflexivity.
Qed.

(** X12.  No cancellation.  If a new image loads while a call is pending,
    the trigger stays disabled until that call settles, and when it
    resolves its records are put on screen under the new image. *)
Theorem stale_response_lands_on_new_image
    (s : State) (old : string) (file : File) (fonts : list FontInfo) :
  as_truthy (image s) = Some old ->
  effects (handleAnalyze_begin s) = [ CallIdentifyFonts old ] /\
  trigger_disabled
    (render (final (reader_onload (dataURL file)
                      (final (handleAnalyze_begin s))))) = true /\
  final (handleAnalyze_resume (Returned fonts)
           (final (reader_onload (dataURL file)
                     (final (handleAnalyze_begin s))))) =
    mkState (Some (dataURL file)) false fonts
      (if (List.length fonts =? 0)%nat then Some no_fonts_message else None)
      (copiedChar s).
Proof.
  intros Himage. rewrite handleAnalyze_begin_run, Himage.
  split; [reflexivity|]. split.
  - reflexivity.
  - rewrite handleAnalyze_resume_run. reflexivity.
Qed.

Lemma stale_response_lands_on_new_image_witness :
  final (handleAnalyze_resume (Returned [ roboto ])
           (final (reader_onload (dataURL webp)
                     (final (handleAnalyze_begin showing_one))))) =
    mkState (Some (dataURL webp)) false [ roboto ] None None.
Proof.
  exact (proj2 (proj2 (stale_response_lands_on_new_image showing_one
                         (dataURL png) webp [ roboto ] eq_refl))).
Defined.

Lemma renderCell_chars (copied : option string) (label : string)
    (chars : list string) :
  cell_char <$> (renderCell copied label <$> chars) = chars.
Proof.
  induction chars as [|c chars IH]; [reflexivity|].
  simpl. f_equal. exact IH.
Qed.

Lemma imap_cells_characters (g : nat -> FontInfo -> Card) (fonts : list FontInfo) :
  (forall i font, cell_char <$> cells_of (g i font) = characters_shown font) ->
  cell_char <$> (imap g fonts ≫= cells_of) = fonts ≫= characters_shown.
Proof.
  revert g. induction fonts as [|font fonts IH]; intros g Hg; [reflexivity|].
  simpl. rewrite fmap_app, Hg. f_equal.
  apply IH. intros i font'. apply Hg.
Qed.

(** X13.  The character cells on screen are exactly the sample characters
    of the displayed records: record by record in the order of the
    results, and within a record the numbers, then the English, then the
    Persian characters, each in its own order. *)
Theorem cells_are_sample_characters (s : State) :
  cell_char <$> all_cells (render s) = results s ≫= characters_shown.
Proof.
  unfold all_cells. rewrite cards_of_render.
  apply imap_cells_characters. intros i font.
  unfold cells_of, renderCard, characters_shown. simpl.
  rewrite !fmap_app, !renderCell_chars. reflexivity.
Qed.

End App_flow.

(* ===================================================================== *)
(** ** More invariants of the event loop                                 *)
(* ===================================================================== *)

Module Loop_invariants.

Import Js_facts App_spec Loop_spec.

Lemma fire_copyToClipboard (c : string) (w : World) :
  fire (copyToClipboard c) w =
    mkWorld
      (mkState (image (ui w)) (loading (ui w)) (results (ui w)) (error (ui w))
         (Some c))
      (readers w) (requests w) (S (timers w)).
Proof. reflexivity. Qed.

Lemma fire_copied_timeout (w : World) :
  fire copied_timeout w =
    mkWorld
      (mkState (image (ui w)) (loading (ui w)) (results (ui w)) (error (ui w))
         None)
      (readers w) (requests w) (timers w).
Proof. reflexivity. Qed.

Lemma step_sourced (w w' : World) : step w w' -> sourced w -> sourced w'.
Proof.
  intros Hstep (Himage & Hcalls & Hloading).
  destruct Hstep as
    [ w files
    | w before file after Hreaders
    | w before file after Hreaders
    | w Henabled
    | w before base64Image after settlement Hrequests
    | w cell Hcell
    | w n Htimers ].
  - rewrite fire_onDrop. destruct files; repeat split; assumption.
  - rewrite fire_reader_onload. unfold sourced. simpl.
    split; [right; eauto|]. split; [assumption | discriminate].
  - repeat split; assumption.
  - apply enabled_inv in Henabled as [Htruthy _].
    rewrite fire_handleAnalyze_begin. unfold as_truthy. rewrite Htruthy.
    destruct (image (ui w)) as [base64Image|] eqn:Hsome; [|discriminate Htruthy].
    unfold sourced. simpl.
    split; [assumption|]. split; [|discriminate].
    apply Forall_app. split; [assumption|].
    apply Forall_singleton.
    destruct Himage as [Hnone | [file Hfile]]; [discriminate Hnone|].
    exists file. congruence.
  - rewrite fire_handleAnalyze_resume, handleAnalyze_resume_run.
    rewrite Hrequests in Hcalls.
    apply Forall_app in Hcalls as [Hbefore Hafter].
    apply Forall_cons in Hafter as [_ Hafter].
    unfold sourced.
    destruct settlement as [fonts|e]; simpl;
      (split; [assumption|]; split; [|discriminate]);
      apply Forall_app; split; assumption.
  - rewrite fire_copyToClipboard. repeat split; assumption.
  - rewrite fire_copied_timeout. repeat split; assumption.
Qed.

Lemma boot_sourced : sourced boot.
Proof.
  split; [left; reflexivity|]. split; [constructor | discriminate].
Qed.

Lemma reachable_sourced (w : World) : reachable w -> sourced w.
Proof.
  unfold reachable. revert w. apply (rtc_ind_r sourced boot).
  - exact boot_sourced.
  - intros w1 w2 _ Hstep IH. exact (step_sourced _ _ Hstep IH).
Qed.

(** X14.  In every state the loop can reach, the image, when there is one,
    is the data URL a reader produced for some file; every pending call to
    identifyFonts was made with such a data URL; and loading is never on
    without an image. *)
Theorem calls_carry_data_urls (w : World) :
  reachable w ->
  (image (ui w) = None \/ exists file, image (ui w) = Some (dataURL file)) /\
  Forall (fun base64Image => exists file, base64Image = dataURL file)
    (requests w) /\
  (loading (ui w) = true -> image (ui w) <> None).
Proof. exact (reachable_sourced w). Qed.

Lemma calls_carry_data_urls_witness :
  Forall (fun base64Image => exists file, base64Image = dataURL file)
    (requests showing_one_busy).
Proof.
  exact (proj1 (proj2 (calls_carry_data_urls showing_one_busy
                         showing_one_busy_reachable))).
Defined.

(** X15.  In every state the loop can reach, at most one call to
    identifyFonts is pending: the disabled trigger is enough to keep a
    second one from starting. *)
Theorem never_two_calls (w : World) :
  reachable w -> (List.length (requests w) <= 1)%nat.
Proof.
  intros Hreach. apply reachable_consistent in Hreach as (_ & Hpending & _).
  destruct (loading (ui w)).
  - destruct Hpending as [base64Image ->]. simpl. lia.
  - rewrite Hpending. simpl. lia.
Qed.

Lemma never_two_calls_witness :
  (List.length (requests showing_one_busy) <= 1)%nat.
Proof.
  exact (never_two_calls showing_one_busy showing_one_busy_reachable).
Defined.

(** X16.  In every state the loop can reach, the notice under the trigger
    is absent or is one of the two messages of handleAnalyze, whatever
    the interleaving of uploads, analyses, copies and timers. *)
Theorem notice_is_one_of_two (w : World) :
  reachable w ->
  notice (render (ui w)) = None \/
  notice (render (ui w)) = Some no_fonts_message \/
  notice (render (ui w)) = Some generic_error_message.
Proof.
  intros Hreach. apply reachable_consistent in Hreach as (_ & _ & Herror).
  unfold render. simpl.
  destruct Herror as [-> | [-> | ->]]; [left | right; left | right; right];
    reflexivity.
Qed.

Lemma notice_is_one_of_two_witness :
  notice (render (ui showing_one_idle)) = None \/
  notice (render (ui showing_one_idle)) = Some no_fonts_message \/
  notice (render (ui showing_one_idle)) = Some generic_error_message.
Proof.
  exact (notice_is_one_of_two showing_one_idle showing_one_idle_reachable).
Defined.

Lemma step_keeps_image (w w' : World) :
  step w w' -> image (ui w) <> None -> image (ui w') <> None.
Proof.
  intros Hstep Himage.
  destruct Hstep as
    [ w files
    | w before file after Hreaders
    | w before file after Hreaders
    | w Henabled
    | w before base64Image after settlement Hrequests
    | w cell Hcell
    | w n Htimers ].
  - rewrite fire_onDrop. destruct files; assumption.
  - rewrite fire_reader_onload. discriminate.
  - assumption.
  - rewrite fire_handleAnalyze_begin.
    destruct (as_truthy (image (ui w))); assumption.
  - rewrite fire_handleAnalyze_resume, handleAnalyze_resume_run.
    destruct settlement; assumption.
  - assumption.
  - assumption.
Qed.

(** X17.  No handler ever unsets the image: once an image is loaded, every
    later state has an image (a new upload replaces it, nothing removes
    it). *)
Theorem image_never_unset (w w' : World) :
  rtc step w w' -> image (ui w) <> None -> image (ui w') <> None.
Proof.
  intros Hrun. induction Hrun as [w | w w1 w' Hstep Hrest IH]; [auto|].
  intros Himage. apply IH. exact (step_keeps_image _ _ Hstep Himage).
Qed.

Lemma image_never_unset_witness : image (ui showing_one_busy) <> None.
Proof.
  apply (image_never_unset showing_one_idle showing_one_busy).
  - apply rtc_once. exact (user_clicks_trigger showing_one_idle eq_refl).
  - discriminate.
Defined.

(** X18.  Timers are not tied to the copy that set them.  After two copies
    two timers are pending; when the first one fires it clears the mark of
    the second copy as well: no cell shows the indicator any more although
    a timer is still pending. *)
Theorem early_timer_clears_later_copy (w : World) (c1 c2 : string) :
  copiedChar (ui (fire (copyToClipboard c2) (fire (copyToClipboard c1) w))) =
    Some c2 /\
  timers (fire (copyToClipboard c2) (fire (copyToClipboard c1) w)) =
    S (S (timers w)) /\
  exists w',
    step (fire (copyToClipboard c2) (fire (copyToClipboard c1) w)) w' /\
    timers w' = S (timers w) /\
    copiedChar (ui w') = None /\
    Forall (fun cell => shows_copied cell = false) (all_cells (render (ui w'))).
Proof.
  split; [reflexivity|]. split; [reflexivity|].
  eexists. split; [|split; [|split]].
  - exact (timer_fires
             (fire (copyToClipboard c2) (fire (copyToClipboard c1) w))
             (S (timers w)) eq_refl).
  - reflexivity.
  - reflexivity.
  - apply Forall_forall. intros cell Hcell.
    apply all_cells_rendered in Hcell as (label & char & ->). reflexivity.
Qed.

(** X19.  The trigger never stays stuck.  In every state the loop can
    reach, when the pending call settles, whether it resolves or rejects,
    the trigger is enabled again. *)
Theorem settling_enables_trigger
    (w : World) (before after : list string) (base64Image : string)
    (settlement : completion (list FontInfo)) :
  reachable w ->
  requests w = before ++ base64Image :: after ->
  trigger_disabled
    (render (ui (fire (handleAnalyze_resume settlement)
                   (mkWorld (ui w) (readers w) (before ++ after) (timers w))))) =
    false.
Proof.
  intros Hreach Hrequests.
  destruct (reachable_consistent _ Hreach) as (Hnonempty & Hpending & _).
  destruct (reachable_sourced _ Hreach) as (_ & _ & Hloading).
  assert (Hon : loading (ui w) = true).
  { destruct (loading (ui w)); [reflexivity|].
    rewrite Hpending in Hrequests. destruct before; discriminate Hrequests. }
  specialize (Hloading Hon).
  rewrite fire_handleAnalyze_resume, handleAnalyze_resume_run.
  assert (Htruthy : truthy (image (ui w)) = true).
  { destruct (image (ui w)) as [u|]; [|contradiction].
    apply truthy_Some. congruence. }
  unfold render. destruct settlement; simpl; rewrite Htruthy; reflexivity.
Qed.

Lemma settling_enables_trigger_witness :
  trigger_disabled
    (render (ui (fire (handleAnalyze_resume (Thrown network_down))
                   (mkWorld (ui showing_one_busy) (readers showing_one_busy)
                      [] (timers showing_one_busy))))) = false.
Proof.
  exact (settling_enables_trigger showing_one_busy [] [] (dataURL png)
           (Thrown network_down) showing_one_busy_reachable eq_refl).
Defined.

(** The race of X12 as a run of the loop: analyse the PNG, drop a WebP
    while the call is pending, let it load, then let the call resolve. *)
Example stale_response_run :
  exists w,
    rtc step showing_one_idle w /\
    ui w = mkState (Some (dataURL webp)) false [ roboto ] None None /\
    requests w = [].
Proof.
  eexists. split.
  - eapply rtc_l; [exact (user_clicks_trigger showing_one_idle eq_refl)|].
    eapply rtc_l; [exact (user_drops _ [ webp ])|].
    eapply rtc_l; [apply (reader_loads _ [] webp []); reflexivity|].
    eapply rtc_l;
      [apply (request_settles _ [] (dataURL png) [] (Returned [ roboto ]));
       reflexivity|].
    apply rtc_refl.
  - split; reflexivity.
Qed.

End Loop_invariants.

(* ===================================================================== *)
(** ** Runs with other events in between                                 *)
(* ===================================================================== *)

Module Interleaving_spec.

Import Js_facts App_spec Loop_spec Loop_invariants.

(** What one interruption does to the cells handleAnalyze cares about:
    only a finished load touches the results and the error, and nothing
    touches the loading flag. *)
Lemma interrupt_frame (i : Interruption) (s : State) :
  loading (final (interrupt i s)) = loading s /\
  results (final (interrupt i s)) = (if is_load i then [] else results s) /\
  error (final (interrupt i s)) = (if is_load i then None else error s).
Proof.
  destruct i as [files | file | | char |]; try (repeat split; reflexivity).
  destruct files; repeat split; reflexivity.
Qed.

Lemma interrupted_frame (during : list Interruption) (s : State) :
  loading (interrupted during s) = loading s /\
  results (interrupted during s) =
    (if loaded_during during then [] else results s) /\
  error (interrupted during s) =
    (if loaded_during during then None else error s).
Proof.
  revert s. induction during as [|i during IH]; intros s.
  - repeat split; reflexivity.
  - unfold interrupted, loaded_during in *. simpl.
    destruct (IH (final (interrupt i s))) as (Hloading & Hresults & Herror).
    destruct (interrupt_frame i s) as (Hl & Hr & He).
    rewrite Hloading, Hresults, Herror, Hl, Hr, He.
    destruct (is_load i); simpl; repeat split;
      destruct (existsb is_load during); reflexivity.
Qed.

Lemma occurs_step (i : Interruption) (w w' : World) : occurs i w w' -> step w w'.
Proof.
  intros Hoccurs.
  destruct Hoccurs as
    [ w files
    | w before file after Hreaders
    | w before file after Hreaders
    | w cell Hcell
    | w n Htimers ].
  - apply user_drops.
  - eapply reader_loads. exact Hreaders.
  - eapply reader_fails. exact Hreaders.
  - apply user_clicks_cell. exact Hcell.
  - apply timer_fires. exact Htimers.
Qed.

Lemma occurs_ui (i : Interruption) (w w' : World) :
  occurs i w w' ->
  ui w' = final (interrupt i (ui w)) /\ requests w' = requests w.
Proof.
  intros Hoccurs.
  destruct Hoccurs as
    [ w files
    | w before file after Hreaders
    | w before file after Hreaders
    | w cell Hcell
    | w n Htimers ].
  - rewrite fire_onDrop. destruct files; split; reflexivity.
  - split; reflexivity.
  - split; reflexivity.
  - split; reflexivity.
  - split; reflexivity.
Qed.

Lemma pending_ui (during : list Interruption) (w w' : World) :
  pending during w w' ->
  ui w' = interrupted during (ui w) /\ requests w' = requests w.
Proof.
  intros Hpending.
  induction Hpending as [w | i during w w1 w2 Hoccurs Hrest IH].
  - split; reflexivity.
  - destruct IH as [Hui Hrequests].
    destruct (occurs_ui _ _ _ Hoccurs) as [Hui1 Hrequests1].
    split; [|congruence].
    rewrite Hui, Hui1. reflexivity.
Qed.

Lemma pending_run (during : list Interruption) (w w' : World) :
  pending during w w' -> rtc step w w'.
Proof.
  intros Hpending.
  induction Hpending as [w | i during w w1 w2 Hoccurs Hrest IH].
  - apply rtc_refl.
  - eapply rtc_l; [exact (occurs_step _ _ _ Hoccurs) | exact IH].
Qed.

(** While loading is on, a step of the loop is an interruption or the
    settlement of a call: the interruptions leave nothing out. *)
Lemma loading_step_cases (w w' : World) :
  step w w' ->
  loading (ui w) = true ->
  (exists i, occurs i w w') \/
  (exists settlement before base64Image after,
     requests w = before ++ base64Image :: after /\
     w' = settle settlement before after w).
Proof.
  intros Hstep Hloading.
  destruct Hstep as
    [ w files
    | w before file after Hreaders
    | w before file after Hreaders
    | w Henabled
    | w before base64Image after settlement Hrequests
    | w cell Hcell
    | w n Htimers ].
  - left. exists (Drops files). constructor.
  - left. exists (Loads file). econstructor. exact Hreaders.
  - left. exists ReadFails. econstructor. exact Hreaders.
  - apply enabled_inv in Henabled as [_ Hidle]. congruence.
  - right. exists settlement, before, base64Image, after.
    split; [exact Hrequests | reflexivity].
  - left. exists (Copies (cell_char cell)). constructor. exact Hcell.
  - left. exists TimerFires. constructor. exact Htimers.
Qed.

(** In a world the loop can reach, with a call pending, a step that
    leaves a call pending is an interruption. *)
Lemma still_pending_occurs (w w' : World) :
  reachable w ->
  loading (ui w) = true ->
  still_pending w w' ->
  exists i, occurs i w w'.
Proof.
  intros Hreach Hloading [Hstep Hleft].
  destruct (loading_step_cases _ _ Hstep Hloading)
    as [Hoccurs | (settlement & before & base64Image & after & Hrequests & ->)];
    [exact Hoccurs|].
  exfalso. apply Hleft.
  destruct (reachable_consistent _ Hreach) as (_ & Hpending & _).
  rewrite Hloading in Hpending. destruct Hpending as [sole Hsole].
  rewrite Hsole in Hrequests.
  unfold settle. rewrite fire_handleAnalyze_resume. simpl.
  destruct before as [|b before]; simpl in Hrequests.
  - injection Hrequests as _ <-. reflexivity.
  - injection Hrequests as _ Hrest. destruct before; discriminate Hrest.
Qed.

(** So every stretch of a run of the loop during which a call stays
    pending is a sequence of interruptions. *)
Lemma still_pending_run (w w' : World) :
  rtc still_pending w w' ->
  reachable w ->
  loading (ui w) = true ->
  exists during, pending during w w'.
Proof.
  intros Hrun.
  induction Hrun as [w | w w1 w' Hfirst Hrest IH]; intros Hreach Hloading.
  - exists []. apply pending_nil.
  - destruct (still_pending_occurs _ _ Hreach Hloading Hfirst) as [i Hoccurs].
    destruct (occurs_ui _ _ _ Hoccurs) as [Hui _].
    destruct (interrupt_frame i (ui w)) as (Hsame & _).
    destruct IH as [during Hpending].
    + eapply rtc_r; [exact Hreach | exact (proj1 Hfirst)].
    + rewrite Hui, Hsame. exact Hloading.
    + exists (i :: during). eapply pending_cons; eassumption.
Qed.

Lemma begin_keeps_results (w : World) :
  results (ui (fire handleAnalyze_begin w)) = results (ui w) /\
  (trigger_disabled (render (ui w)) = false ->
   loading (ui (fire handleAnalyze_begin w)) = true /\
   error (ui (fire handleAnalyze_begin w)) = None /\
   exists base64Image,
     as_truthy (image (ui w)) = Some base64Image /\
     requests (fire handleAnalyze_begin w) = requests w ++ [ base64Image ]).
Proof.
  rewrite fire_handleAnalyze_begin. split.
  - destruct (as_truthy (image (ui w))); reflexivity.
  - intros Henabled. apply enabled_inv in Henabled as [Htruthy _].
    unfold as_truthy. rewrite Htruthy.
    destruct (image (ui w)) as [base64Image|]; [|discriminate Htruthy].
    simpl. eauto.
Qed.

Lemma settle_rejected (e : JsError) (before after : list string) (w : World) :
  ui (settle (Thrown e) before after w) =
    mkState (image (ui w)) false (results (ui w)) (Some generic_error_message)
      (copiedChar (ui w)).
Proof.
  unfold settle. rewrite fire_handleAnalyze_resume, handleAnalyze_resume_run.
  reflexivity.
Qed.

(** The two sample scenes as runs of a pending call. *)
Lemma showing_one_busy_pending :
  pending [] (fire handleAnalyze_begin showing_one_idle) showing_one_busy.
Proof. apply pending_nil. Qed.

Lemma reloaded_busy_pending :
  pending [ Drops [ webp ]; Loads webp ]
    (fire handleAnalyze_begin showing_one_idle) reloaded_busy.
Proof.
  eapply pending_cons; [apply occurs_drop|].
  eapply pending_cons; [apply (occurs_load _ [] webp []); reflexivity|].
  apply pending_nil.
Qed.

(** C1 (amended).  Take any run of the loop in which the trigger is
    clicked, any uploads, loads, failed reads, copies and timers happen
    while the call is pending, and the call then rejects.  Afterwards the
    generic error notice is shown, and the results are those displayed
    before the run, unless an image finished loading while the call was
    pending, in which case they are empty; the cards on screen are the
    cards of those results.  So zero cards are rendered exactly when no
    results were displayed before the run or an image loaded during it. *)
Theorem rejected_run_keeps_results_unless_reloaded
    (w0 w1 : World) (during : list Interruption)
    (before after : list string) (base64Image : string) (e : JsError) :
  trigger_disabled (render (ui w0)) = false ->
  pending during (fire handleAnalyze_begin w0) w1 ->
  requests w1 = before ++ base64Image :: after ->
  rtc step w0 (settle (Thrown e) before after w1) /\
  notice (render (ui (settle (Thrown e) before after w1))) =
    Some generic_error_message /\
  results (ui (settle (Thrown e) before after w1)) =
    (if loaded_during during then [] else results (ui w0)) /\
  cards_of (render (ui (settle (Thrown e) before after w1))) =
    imap (renderCard (copiedChar (ui w1)))
      (if loaded_during during then [] else results (ui w0)) /\
  (cards_of (render (ui (settle (Thrown e) before after w1))) = [] <->
   loaded_during during = true \/ results (ui w0) = []).
Proof.
  intros Henabled Hpending Hrequests.
  destruct (pending_ui _ _ _ Hpending) as [Hui _].
  destruct (interrupted_frame during (ui (fire handleAnalyze_begin w0)))
    as (_ & Hresults & _).
  rewrite <- Hui in Hresults.
  rewrite (proj1 (begin_keeps_results w0)) in Hresults.
  split; [|split; [|split; [|split]]].
  - eapply rtc_l; [exact (user_clicks_trigger w0 Henabled)|].
    eapply rtc_r; [exact (pending_run _ _ _ Hpending)|].
    exact (request_settles w1 before base64Image after (Thrown e) Hrequests).
  - rewrite settle_rejected. reflexivity.
  - rewrite settle_rejected. exact Hresults.
  - rewrite cards_of_render, settle_rejected. simpl. rewrite Hresults.
    reflexivity.
  - rewrite cards_of_render, settle_rejected. simpl. rewrite Hresults.
    destruct (loaded_during during); simpl.
    + split; [auto | reflexivity].
    + destruct (results (ui w0)); simpl; split.
      * auto.
      * reflexivity.
      * discriminate.
      * intros [Hloaded | Hnone]; discriminate.
Qed.

Lemma rejected_run_keeps_results_unless_reloaded_witness :
  results (ui (settle (Thrown network_down) [] [] showing_one_busy)) =
    [ vazirmatn ] /\
  results (ui (settle (Thrown network_down) [] [] reloaded_busy)) = [] /\
  notice (render (ui (settle (Thrown network_down) [] [] reloaded_busy))) =
    Some generic_error_message.
Proof.
  split; [|split].
  - exact (proj1 (proj2 (proj2
             (rejected_run_keeps_results_unless_reloaded
                showing_one_idle showing_one_busy [] [] [] (dataURL png)
                network_down eq_refl showing_one_busy_pending eq_refl)))).
  - exact (proj1 (proj2 (proj2
             (rejected_run_keeps_results_unless_reloaded
                showing_one_idle reloaded_busy [ Drops [ webp ]; Loads webp ]
                [] [] (dataURL png) network_down eq_refl
                reloaded_busy_pending eq_refl)))).
  - exact (proj1 (proj2
             (rejected_run_keeps_results_unless_reloaded
                showing_one_idle reloaded_busy [ Drops [ webp ]; Loads webp ]
                [] [] (dataURL png) network_down eq_refl
                reloaded_busy_pending eq_refl))).
Defined.

(** X9.  Clicking the trigger issues exactly one call, for the current
    image.  From then on, whatever uploads, loads, failed reads, copies
    and timers happen while that call is pending, the trigger stays in its
    disabled "Analyzing Fonts..." form and the notice stays cleared; the
    results are those displayed before the click unless an image finished
    loading meanwhile, which empties them; and the right column shows the
    cards of the results held, or the scanning placeholder exactly when
    none are held. *)
Theorem pending_call_keeps_cards_unless_reloaded
    (w0 w1 : World) (during : list Interruption) :
  trigger_disabled (render (ui w0)) = false ->
  pending during (fire handleAnalyze_begin w0) w1 ->
  (exists base64Image,
     as_truthy (image (ui w0)) = Some base64Image /\
     requests w1 = requests w0 ++ [ base64Image ]) /\
  trigger_disabled (render (ui w1)) = true /\
  trigger_label (render (ui w1)) = "Analyzing Fonts..." /\
  notice (render (ui w1)) = None /\
  results (ui w1) = (if loaded_during during then [] else results (ui w0)) /\
  pane (render (ui w1)) =
    match results (ui w1) with
    | [] => Scanning
    | _ :: _ => Cards (imap (renderCard (copiedChar (ui w1))) (results (ui w1)))
    end.
Proof.
  intros Henabled Hpending.
  destruct (pending_ui _ _ _ Hpending) as [Hui Hsame].
  destruct (interrupted_frame during (ui (fire handleAnalyze_begin w0)))
    as (Hloading & Hresults & Herror).
  rewrite <- Hui in Hloading, Hresults, Herror.
  destruct (begin_keeps_results w0) as [Hbegin Hclicked].
  destruct (Hclicked Henabled) as (Hon & Hcleared & base64Image & Himage & Hcall).
  rewrite Hbegin in Hresults. rewrite Hon in Hloading.
  rewrite Hcleared in Herror.
  assert (Hnone : error (ui w1) = None)
    by (rewrite Herror; destruct (loaded_during during); reflexivity).
  split; [|split; [|split; [|split; [|split]]]].
  - exists base64Image. split; [exact Himage | congruence].
  - unfold render. simpl. rewrite Hloading. apply orb_true_r.
  - unfold render. simpl. rewrite Hloading. reflexivity.
  - unfold render. simpl. rewrite Hnone. reflexivity.
  - exact Hresults.
  - unfold render. simpl. rewrite Hloading.
    destruct (results (ui w1)); reflexivity.
Qed.

Lemma pending_call_keeps_cards_unless_reloaded_witness :
  pane (render (ui showing_one_busy)) =
    Cards (imap (renderCard None) [ vazirmatn ]) /\
  pane (render (ui reloaded_busy)) = Scanning /\
  trigger_disabled (render (ui reloaded_busy)) = true.
Proof.
  split; [|split].
  - exact (proj2 (proj2 (proj2 (proj2 (proj2
             (pending_call_keeps_cards_unless_reloaded
                showing_one_idle showing_one_busy [] eq_refl
                showing_one_busy_pending)))))).
  - exact (proj2 (proj2 (proj2 (proj2 (proj2
             (pending_call_keeps_cards_unless_reloaded
                showing_one_idle reloaded_busy [ Drops [ webp ]; Loads webp ]
                eq_refl reloaded_busy_pending)))))).
  - exact (proj1 (proj2
             (pending_call_keeps_cards_unless_reloaded
                showing_one_idle reloaded_busy [ Drops [ webp ]; Loads webp ]
                eq_refl reloaded_busy_pending))).
Defined.

End Interleaving_spec.
